(** * physical_constants.py: unit and uncertain-value formatting

    A shallow embedding of [format_unit] and [format_uncertain_value] from
    [resources/physics/physical_constants.py], together with the two
    compiled patterns [unit_regex] and [number_regex] they rely on.

    Conventions of the model.
    - A Python [str] is a [string]; a character is an [ascii], read as the
      code point of the same number (U+0000 .. U+00FF).  On that range
      [\d] is exactly [0-9], and [\w] is the set listed in [is_word].
    - Python integers are unbounded: they are [Z], and [int] and [str] are
      taken without the interpreter's optional digit-count limit.
    - An exception is a value of [exn]; a computation that may raise
      returns a [result].  [None.groups()] raises [AttributeError], a
      missing dictionary key raises [KeyError key], [int] on a string that
      is not an integer literal raises [ValueError], and [math.ceil] of an
      infinite float raises [OverflowError].
    - A Python [float] is an IEEE-754 binary64 number; only the
      non-negative ones occur here, and [float(str)] rounds the decimal it
      reads to the nearest one, ties to even.
    - The interpreter is a 64-bit one: a repeat count must be below
      [2^63], or [str * int] raises [OverflowError].  Memory is not
      modelled: below that bound a string is always built, where a real
      machine raises [MemoryError] once the string is too long for it.
      The theorems that say a string is returned therefore keep the
      number of zeros to build within [pad_limit]. *)

From Stdlib Require Import String Ascii List ZArith Lia Bool Arith.
From Stdlib Require Import Numbers.DecimalString Numbers.DecimalZ.
Import ListNotations.

Local Open Scope string_scope.

(** ** Exceptions *)

Inductive exn : Type :=
| AttributeError
| KeyError (key : string)
| ValueError
| OverflowError.

Inductive result (A : Type) : Type :=
| Ok (a : A)
| Raise (e : exn).

Arguments Ok {A} a.
Arguments Raise {A} e.

Definition bind {A B : Type} (m : result A) (f : A -> result B) : result B :=
  match m with
  | Ok a => f a
  | Raise e => Raise e
  end.

Notation "x <- m ;; k" := (bind m (fun x => k))
  (at level 61, m at next level, right associativity).

(** ** Strings *)

Module Str.

Definition is_empty (s : string) : bool :=
  match s with
  | EmptyString => true
  | String _ _ => false
  end.

(** Truth value of a [str]: non-empty. *)
Definition truthy (s : string) : bool := negb (is_empty s).

Definition head (s : string) : option ascii :=
  match s with
  | EmptyString => None
  | String c _ => Some c
  end.

Fixpoint replicate (n : nat) (c : ascii) : string :=
  match n with
  | O => EmptyString
  | S n' => String c (replicate n' c)
  end.

Fixpoint forallb (p : ascii -> bool) (s : string) : bool :=
  match s with
  | EmptyString => true
  | String c s' => p c && forallb p s'
  end.

(** The character that precedes the position reached after reading
    [consumed], when [prev] preceded its start. *)
Fixpoint last (prev : option ascii) (consumed : string) : option ascii :=
  match consumed with
  | EmptyString => prev
  | String c s' => last (Some c) s'
  end.

Definition len (s : string) : Z := Z.of_nat (String.length s).

(** [c * n] for a one-character string and a count: a count that is not
    positive gives the empty string, a count that does not fit an index
    ([sys.maxsize] is [2^63 - 1]) raises [OverflowError]. *)
Definition repeat_char (c : ascii) (n : Z) : result string :=
  if (2 ^ 63 <=? n)%Z then Raise OverflowError
  else Ok (replicate (Z.to_nat n) c).

End Str.

(** ** Character classes *)

Definition in_range (lo hi : nat) (c : ascii) : bool :=
  let n := nat_of_ascii c in (lo <=? n)%nat && (n <=? hi)%nat.

(** [\d] *)
Definition is_digit (c : ascii) : bool := in_range 48 57 c.

(** [[a-zA-Z]] *)
Definition is_letter (c : ascii) : bool :=
  in_range 97 122 c || in_range 65 90 c.

(** [[+-]] *)
Definition is_sign (c : ascii) : bool :=
  Ascii.eqb c "+" || Ascii.eqb c "-".

(** [\w] on code points below 256: the ASCII letters, digits and the
    underscore, and the alphanumeric characters of Latin-1. *)
Definition is_word (c : ascii) : bool :=
  let n := nat_of_ascii c in
  is_digit c || is_letter c || (n =? 95)%nat
  || (n =? 170)%nat || (n =? 178)%nat || (n =? 179)%nat || (n =? 181)%nat
  || (n =? 185)%nat || (n =? 186)%nat || in_range 188 190 c
  || in_range 192 214 c || in_range 216 246 c || in_range 248 255 c.

Definition is_char (a : ascii) (c : ascii) : bool := Ascii.eqb c a.

(** ** Backtracking regular expressions

    The fragment of [re] the two patterns use.  Repetition is applied to
    character classes only, as in the source.  [run] lists every way the
    expression can match a prefix of the subject, in the order in which
    the backtracking matcher tries them: greedy operators first offer the
    longest match.  The matcher's answer is the first entry of the list
    that satisfies what follows. *)

Module Re.

Inductive regex : Type :=
| Class (p : ascii -> bool)      (* one character of a class *)
| Seq (r1 r2 : regex)            (* r1 r2 *)
| Opt (r : regex)                (* r? *)
| Star (p : ascii -> bool)       (* [p]* *)
| Plus (p : ascii -> bool)       (* [p]+ *)
| Group (n : nat) (r : regex)    (* ( r ), the n-th capturing group *)
| WordBoundary.                  (* \b *)

(** Captured groups: [None] for a group that did not take part. *)
Definition groups : Type := nat -> option string.

Definition no_groups : groups := fun _ => None.

Definition set_group (n : nat) (s : string) (g : groups) : groups :=
  fun k => if Nat.eqb k n then Some s else g k.

(** One way of matching: the text consumed, the text left, the groups. *)
Definition outcome : Type := (string * string * groups)%type.

Definition is_word_opt (c : option ascii) : bool :=
  match c with
  | Some c => is_word c
  | None => false
  end.

Definition at_boundary (prev : option ascii) (s : string) : bool :=
  xorb (is_word_opt prev) (is_word_opt (Str.head s)).

Definition cons_consumed (c : ascii) (o : outcome) : outcome :=
  let '(t, rest, g) := o in (String c t, rest, g).

(** Greedy [[p]*]: the longest run first, the empty match last. *)
Fixpoint run_star (p : ascii -> bool) (s : string) (g : groups)
  : list outcome :=
  match s with
  | String c s' =>
      if p c
      then (map (cons_consumed c) (run_star p s' g) ++ [("", s, g)])%list
      else [("", s, g)]
  | EmptyString => [("", s, g)]
  end.

Fixpoint run (r : regex) (prev : option ascii) (s : string) (g : groups)
  : list outcome :=
  match r with
  | Class p =>
      match s with
      | String c s' => if p c then [(String c "", s', g)] else []
      | EmptyString => []
      end
  | Seq r1 r2 =>
      flat_map
        (fun o1 : outcome =>
           let '(t1, s1, g1) := o1 in
           map (fun o2 : outcome =>
                  let '(t2, s2, g2) := o2 in (t1 ++ t2, s2, g2))
               (run r2 (Str.last prev t1) s1 g1))
        (run r1 prev s g)
  | Opt r' => (run r' prev s g ++ [("", s, g)])%list
  | Star p => run_star p s g
  | Plus p =>
      match s with
      | String c s' =>
          if p c then map (cons_consumed c) (run_star p s' g) else []
      | EmptyString => []
      end
  | Group n r' =>
      map (fun o : outcome =>
             let '(t, rest, g') := o in (t, rest, set_group n t g'))
          (run r' prev s g)
  | WordBoundary => if at_boundary prev s then [("", s, g)] else []
  end.

Definition ends (o : outcome) : bool :=
  let '(_, rest, _) := o in Str.is_empty rest.

(** [pattern.fullmatch(s)]: the first way of matching that consumes the
    whole subject; [None] when there is none. *)
Definition fullmatch (r : regex) (s : string) : option groups :=
  match find ends (run r None s no_groups) with
  | Some (_, _, g) => Some g
  | None => None
  end.

(** One match attempt at the current position: the first way. *)
Definition match_here (r : regex) (prev : option ascii) (s : string)
  : option outcome :=
  hd_error (run r prev s no_groups).

(** The scan of [pattern.findall(s)]: try the current position; after a
    match resume where it ended (one character further when it was
    empty), otherwise move one character on.  [fuel] bounds the number
    of positions visited. *)
Fixpoint scan (fuel : nat) (r : regex) (prev : option ascii) (s : string)
  : list groups :=
  match fuel with
  | O => []
  | S fuel' =>
      match match_here r prev s with
      | Some (String c t, rest, g) =>
          g :: scan fuel' r (Str.last prev (String c t)) rest
      | Some (EmptyString, _, g) =>
          match s with
          | String c s' => g :: scan fuel' r (Some c) s'
          | EmptyString => [g]
          end
      | None =>
          match s with
          | String c s' => scan fuel' r (Some c) s'
          | EmptyString => []
          end
      end
  end.

Definition finditer (r : regex) (s : string) : list groups :=
  scan (S (String.length s)) r None s.

(** A group as [findall] reports it: the empty string when unset. *)
Definition group_text (g : groups) (n : nat) : string :=
  match g n with
  | Some t => t
  | None => ""
  end.

(** What an expression may match at a position, with no order among the
    ways: [den r prev s g o] says that [o] is one way for [r] to match a
    prefix of [s] when [prev] precedes it and [g] are the groups so
    far. *)
Fixpoint den (r : regex) (prev : option ascii) (s : string) (g : groups)
  (o : outcome) : Prop :=
  match r with
  | Class p =>
      exists c rest, p c = true /\ s = String c rest /\ o = (String c "", rest, g)
  | Seq r1 r2 =>
      exists t1 s1 g1 t2 s2 g2,
        den r1 prev s g (t1, s1, g1)
        /\ den r2 (Str.last prev t1) s1 g1 (t2, s2, g2)
        /\ o = (t1 ++ t2, s2, g2)
  | Opt r' => den r' prev s g o \/ o = ("", s, g)
  | Star p =>
      exists t rest, Str.forallb p t = true /\ s = t ++ rest /\ o = (t, rest, g)
  | Plus p =>
      exists c t rest,
        p c = true /\ Str.forallb p t = true
        /\ s = String c (t ++ rest) /\ o = (String c t, rest, g)
  | Group n r' =>
      exists t rest g',
        den r' prev s g (t, rest, g') /\ o = (t, rest, set_group n t g')
  | WordBoundary => at_boundary prev s = true /\ o = ("", s, g)
  end.

(** The text that follows does not start with a character of [p]. *)
Definition stops (p : ascii -> bool) (rest : string) : Prop :=
  match rest with
  | String c _ => p c = false
  | EmptyString => True
  end.

End Re.

Notation "r1 >> r2" := (Re.Seq r1 r2) (at level 60, right associativity).

(** ** The two patterns *)

(** [\b([a-zA-Z]+)(?:\^(-?)(\d+))?\b] *)
Definition unit_regex : Re.regex :=
  Re.WordBoundary
  >> Re.Group 1 (Re.Plus is_letter)
  >> Re.Opt (Re.Class (is_char "^")
             >> Re.Group 2 (Re.Opt (Re.Class (is_char "-")))
             >> Re.Group 3 (Re.Plus is_digit))
  >> Re.WordBoundary.

(** The pattern of [number_regex], six groups in a row. *)
Definition number_regex : Re.regex :=
  Re.Group 1 (Re.Opt (Re.Class is_sign))                (* ([+-]?) *)
  >> Re.Group 2 (Re.Plus is_digit)                      (* (\d+) *)
  >> Re.Group 3 (Re.Opt (Re.Class (is_char ".")))       (* (\.?) *)
  >> Re.Group 4 (Re.Star is_digit)                      (* (\d* ) *)
  >> Re.Group 5 (Re.Opt (Re.Class (is_char "e")))       (* (e?) *)
  >> Re.Group 6 (Re.Opt (Re.Class is_sign) >> Re.Star is_digit).
                                                        (* ([+-]?\d* ) *)

(** [unit_regex.findall(s)]: with three groups, a list of triples. *)
Definition triple_of (g : Re.groups) : string * string * string :=
  (Re.group_text g 1, Re.group_text g 2, Re.group_text g 3).

Definition findall3 (r : Re.regex) (s : string)
  : list (string * string * string) :=
  map triple_of (Re.finditer r s).

(** The six groups of [number_regex.fullmatch(s).groups()]. *)
Record number_parts : Type := mk_parts {
  p_sign : string;      (* [0] *)
  p_int : string;       (* [1] *)
  p_point : string;     (* [2] *)
  p_frac : string;      (* [3] *)
  p_marker : string;    (* [4] *)
  p_exp : string        (* [5] *)
}.

Definition parts_of (g : Re.groups) : number_parts :=
  mk_parts (Re.group_text g 1) (Re.group_text g 2) (Re.group_text g 3)
           (Re.group_text g 4) (Re.group_text g 5) (Re.group_text g 6).

(** The groups that spell a given decomposition. *)
Definition groups_of (p : number_parts) : Re.groups :=
  Re.set_group 6 (p_exp p) (Re.set_group 5 (p_marker p)
    (Re.set_group 4 (p_frac p) (Re.set_group 3 (p_point p)
      (Re.set_group 2 (p_int p) (Re.set_group 1 (p_sign p) Re.no_groups))))).

Definition fullmatch_groups (s : string) : result number_parts :=
  match Re.fullmatch number_regex s with
  | Some g => Ok (parts_of g)
  | None => Raise AttributeError
  end.

(** ** Integers and floats *)

(** [int(s)] on a string made of an optional sign and decimal digits, the
    only strings the two functions pass to it (whitespace and underscores,
    which [int] also tolerates, cannot occur in them). *)
Definition py_int (s : string) : result Z :=
  let unsigned (t : string) : option Z :=
    option_map Z.of_uint (NilZero.uint_of_string t) in
  let r :=
    match s with
    | String "+" t => unsigned t
    | String "-" t => option_map Z.opp (unsigned t)
    | _ => unsigned s
    end in
  match r with
  | Some z => Ok z
  | None => Raise ValueError
  end.

(** [str(n)] of an integer. *)
Definition py_str (n : Z) : string := NilZero.string_of_int (Z.to_int n).

Module Float.

(** A non-negative binary64 number [m * 2^e], or [inf]. *)
Inductive t : Type :=
| Finite (m e : Z)
| Infinity.

(** The fraction [a/b] equal to [num/den / 2^e]. *)
Definition scaled (num den e : Z) : Z * Z :=
  if (0 <=? e)%Z then (num, den * 2 ^ e)%Z else (num * 2 ^ (- e), den)%Z.

(** The integer nearest to [a/b], ties to even. *)
Definition round_half_even (a b : Z) : Z :=
  let q := (a / b)%Z in
  let r := (a mod b)%Z in
  if (2 * r <? b)%Z then q
  else if (b <? 2 * r)%Z then (q + 1)%Z
  else if Z.even q then q else (q + 1)%Z.

(** The exponent at which [num/den] has a 53-bit significand, no
    smaller than that of the subnormal numbers. *)
Definition exponent_of (num den : Z) : Z :=
  let l := (Z.log2 num - Z.log2 den)%Z in
  let '(a, b) := scaled num den (l - 52) in
  Z.max (if (a <? b * 2 ^ 52)%Z then l - 53 else l - 52)%Z (-1074)%Z.

(** The binary64 number nearest to [num/den], for [den > 0]. *)
Definition of_ratio (num den : Z) : t :=
  if (num <=? 0)%Z then Finite 0 0
  else
    let e := exponent_of num den in
    let '(a, b) := scaled num den e in
    let m := round_half_even a b in
    if (971 <? e)%Z || ((e =? 971)%Z && (m =? 2 ^ 53)%Z)
    then Infinity
    else Finite m e.

(** The binary64 number nearest to [n * 10^d]. *)
Definition of_decimal (n d : Z) : t :=
  if (0 <=? d)%Z then of_ratio (n * 10 ^ d) 1 else of_ratio n (10 ^ (- d)).

(** [math.ceil(x)] *)
Definition ceil (x : t) : result Z :=
  match x with
  | Finite m e =>
      Ok (if (0 <=? e)%Z then m * 2 ^ e else - ((- m) / 2 ^ (- e)))%Z
  | Infinity => Raise OverflowError
  end.

End Float.

(** The text before the first ["e"] and the text after it. *)
Fixpoint split_marker (s : string) : option (string * string) :=
  match s with
  | EmptyString => None
  | String c s' =>
      if Ascii.eqb c "e" then Some ("", s')
      else match split_marker s' with
           | Some (m, x) => Some (String c m, x)
           | None => None
           end
  end.

(** [float(s)] on a string of the shape digits, ["e"], integer: the only
    shape [format_uncertain_value] builds. *)
Definition py_float (s : string) : result Float.t :=
  match split_marker s with
  | Some (m, x) =>
      if Str.forallb is_digit m
      then n <- py_int m ;; d <- py_int x ;; Ok (Float.of_decimal n d)
      else Raise ValueError
  | None => Raise ValueError
  end.

(** ** The symbol table *)

Definition unit_map : list (string * string) :=
  [ ("A", "\ampere");
    ("C", "\coulomb");
    ("F", "\farad");
    ("GeV", "\giga\electronvolt");
    ("Hz", "\hertz");
    ("J", "\joule");
    ("K", "\kelvin");
    ("MHz", "\mega\hertz");
    ("MeV", "\mega\electronvolt");
    ("N", "\newton");
    ("Pa", "\pascal");
    ("S", "\siemens");
    ("T", "\tesla");
    ("V", "\volt");
    ("W", "\watt");
    ("Wb", "\weber");
    ("c", "\clight");
    ("eV", "\electronvolt");
    ("fm", "\femto\meter");
    ("kg", "\kilogram");
    ("m", "\metre");
    ("mol", "\mole");
    ("ohm", "\ohm");
    ("s", "\second");
    ("sr", "\steradian");
    ("u", "\atomicmassunit") ].

(** [d[key]] *)
Fixpoint getitem (d : list (string * string)) (key : string) : result string :=
  match d with
  | [] => Raise (KeyError key)
  | (k, v) :: d' => if String.eqb k key then Ok v else getitem d' key
  end.

(** ** format_unit *)

(** The markers one token appends to [unit] before its symbol. *)
Definition add_markers (unit sign exp : string) : string :=
  let unit := if Str.truthy sign then unit ++ "\per" else unit in
  if String.eqb exp "1" then unit
  else if String.eqb exp "2" then unit ++ "\square"
  else if String.eqb exp "3" then unit ++ "\cube"
  else if Str.truthy exp then unit ++ "\raiseto{" ++ exp ++ "}"
  else unit.

(** The body of the [for] loop, from the accumulated [unit]. *)
Fixpoint format_tokens (tokens : list (string * string * string))
  (unit : string) : result string :=
  match tokens with
  | [] => Ok unit
  | (base, sign, exp) :: tokens' =>
      let unit := add_markers unit sign exp in
      markup <- getitem unit_map base ;;
      format_tokens tokens' (unit ++ markup)
  end.

Definition format_unit (unit_input : string) : result string :=
  format_tokens (findall3 unit_regex unit_input) "".

(** ** format_uncertain_value

    The two arguments are taken as strings, on which [str] is the
    identity. *)

Definition exponent_value (exp : string) : result Z :=
  if Str.truthy exp then py_int exp else Ok 0%Z.

Definition join_parts (val_parts : number_parts) (unc_digits : string)
  : string :=
  p_sign val_parts ++ p_int val_parts ++ p_point val_parts
  ++ p_frac val_parts ++ "(" ++ unc_digits ++ ")"
  ++ p_marker val_parts ++ p_exp val_parts.

Definition format_uncertain_value (value_input uncertainty_input : string)
  : result string :=
  val_parts <- fullmatch_groups value_input ;;
  unc_parts <- fullmatch_groups uncertainty_input ;;
  let unc_digits := p_int unc_parts ++ p_frac unc_parts in
  n <- py_int unc_digits ;;
  unc_digits <-
    (if negb (n =? 0)%Z then
       val_exp <- exponent_value (p_exp val_parts) ;;
       unc_exp <- exponent_value (p_exp unc_parts) ;;
       let exp_discrepancy :=
         ((unc_exp - Str.len (p_frac unc_parts))
          - (val_exp - Str.len (p_frac val_parts)))%Z in
       if (exp_discrepancy <? 0)%Z then
         x <- py_float (unc_digits ++ "e" ++ py_str exp_discrepancy) ;;
         c <- Float.ceil x ;;
         Ok (py_str c)
       else
         zeros <- Str.repeat_char "0" exp_discrepancy ;;
         Ok (unc_digits ++ zeros)
     else Ok "0") ;;
  Ok (join_parts val_parts unc_digits).

(** ** The decimal-literal grammar, in the words of the specification

    An optional leading sign, an integer digit run, an optional decimal
    point, an optional fractional digit run, an optional exponent marker,
    an optional signed exponent digit run.  As for the fractional run, an
    optional run may be empty, with or without the sign in front. *)

Definition optional (c : ascii -> bool) (s : string) : Prop :=
  s = "" \/ exists a, c a = true /\ s = String a "".

Definition digit_run (s : string) : Prop := Str.forallb is_digit s = true.

Definition signed_digit_run (s : string) : Prop :=
  exists sg ds, s = sg ++ ds /\ optional is_sign sg /\ digit_run ds.

Record well_formed (p : number_parts) : Prop := mk_well_formed {
  wf_sign : optional is_sign (p_sign p);
  wf_int : digit_run (p_int p);
  wf_int_mandatory : p_int p <> "";
  wf_point : optional (is_char ".") (p_point p);
  wf_frac : digit_run (p_frac p);
  wf_marker : optional (is_char "e") (p_marker p);
  wf_exp : signed_digit_run (p_exp p)
}.

(** The literal a decomposition spells. *)
Definition text_of (p : number_parts) : string :=
  p_sign p ++ p_int p ++ p_point p ++ p_frac p ++ p_marker p ++ p_exp p.

Definition decimal_literal (s : string) : Prop :=
  exists p, well_formed p /\ s = text_of p.

(** The decomposition the greedy matcher finds first: digits go to the
    integer run unless a point precedes them, and to the fractional run
    rather than to the exponent unless a marker precedes them. *)
Definition canonical (p : number_parts) : Prop :=
  (p_point p = "" -> p_frac p = "")
  /\ (p_marker p = "" -> Re.stops is_digit (p_exp p)).

(** ** The quantities the specification names *)

(** [unc_digits]: the uncertainty's integer and fractional digit runs,
    concatenated. *)
Definition unc_digits_of (unc_parts : number_parts) : string :=
  p_int unc_parts ++ p_frac unc_parts.

(** The exponent of a literal as the specification words it: zero when
    there is no exponent marker, else the signed exponent that is read. *)
Definition marker_exponent (p : number_parts) : result Z :=
  if Str.truthy (p_marker p) then py_int (p_exp p) else Ok 0%Z.

(** The decimal exponent of the least significant displayed digit: the
    exponent less the number of fractional digits. *)
Definition least_significant_exponent (p : number_parts) : result Z :=
  e <- marker_exponent p ;; Ok (e - Str.len (p_frac p))%Z.

(** The uncertainty's least-significant exponent minus the value's. *)
Definition discrepancy (val_parts unc_parts : number_parts) : result Z :=
  u <- least_significant_exponent unc_parts ;;
  v <- least_significant_exponent val_parts ;;
  Ok (u - v)%Z.

(** A literal in which the exponent marker and the exponent group come
    together or not at all. *)
Definition paired (p : number_parts) : Prop :=
  p_marker p = "" <-> p_exp p = "".

(** The discrepancy as lines 147 to 150 compute it, each exponent read
    from the exponent group when that is not empty. *)
Definition exp_discrepancy_of (val_parts unc_parts : number_parts)
  : result Z :=
  val_exp <- exponent_value (p_exp val_parts) ;;
  unc_exp <- exponent_value (p_exp unc_parts) ;;
  Ok ((unc_exp - Str.len (p_frac unc_parts))
      - (val_exp - Str.len (p_frac val_parts)))%Z.

(** A number of zeros that any machine builds: one mebibyte of text.
    Beyond it, whether the padded digits can be built depends on the
    memory of the machine. *)
Definition pad_limit : Z := (2 ^ 20)%Z.

(** The least integer not below [n * 10^d]. *)
Definition exact_ceiling (n d : Z) : Z :=
  if (0 <=? d)%Z then (n * 10 ^ d)%Z else (- ((- n) / 10 ^ (- d)))%Z.

(** An exponent group that [int] can read when it is not empty: not a
    bare sign. *)
Definition exponent_readable (p : number_parts) : Prop :=
  p_exp p <> "+" /\ p_exp p <> "-".

(** The text after the first occurrence of [c]. *)
Fixpoint drop_through (c : ascii) (s : string) : string :=
  match s with
  | EmptyString => EmptyString
  | String a s' => if Ascii.eqb a c then s' else drop_through c s'
  end.

(** The text without its first parenthetical. *)
Fixpoint strip_parenthetical (s : string) : string :=
  match s with
  | EmptyString => EmptyString
  | String a s' =>
      if Ascii.eqb a "(" then drop_through ")" s'
      else String a (strip_parenthetical s')
  end.

(** ** Unit expressions, in the words of the specification

    An entry is letters, optionally followed by a caret, an optional
    minus sign and digits; an expression is a sequence of entries
    separated by single spaces.  An entry is written here as the triple
    [findall] reports for it: base, sign, exponent digits, the last two
    empty when there is no exponent. *)

Definition unit_token : Type := (string * string * string)%type.

Definition token_base (t : unit_token) : string := fst (fst t).

Definition well_formed_token (t : unit_token) : Prop :=
  let '(base, sign, exp) := t in
  Str.forallb is_letter base = true /\ base <> ""
  /\ Str.forallb is_digit exp = true
  /\ (sign = "" \/ (sign = "-" /\ exp <> "")).

Definition token_text (t : unit_token) : string :=
  let '(base, sign, exp) := t in
  if Str.truthy exp then base ++ "^" ++ sign ++ exp else base.

Fixpoint unit_text (tokens : list unit_token) : string :=
  match tokens with
  | [] => ""
  | [t] => token_text t
  | t :: tokens' => token_text t ++ " " ++ unit_text tokens'
  end.

(** What may follow an entry: the end of the text, or a space. *)
Definition separated (rest : string) : Prop :=
  rest = "" \/ exists r, rest = String " " r.

Definition in_table (base : string) : Prop :=
  exists markup, getitem unit_map base = Ok markup.

Definition reciprocal_marker (sign : string) : string :=
  if Str.truthy sign then "\per" else "".

Definition power_marker (exp : string) : string :=
  if String.eqb exp "1" then ""
  else if String.eqb exp "2" then "\square"
  else if String.eqb exp "3" then "\cube"
  else if Str.truthy exp then "\raiseto{" ++ exp ++ "}"
  else "".

(** The markup of one entry. *)
Definition render_token (t : unit_token) : result string :=
  let '(base, sign, exp) := t in
  markup <- getitem unit_map base ;;
  Ok (reciprocal_marker sign ++ power_marker exp ++ markup).

(** The markup of the entries in order, up to the first that fails. *)
Fixpoint render_all (tokens : list unit_token) : result string :=
  match tokens with
  | [] => Ok ""
  | t :: tokens' =>
      m <- render_token t ;;
      ms <- render_all tokens' ;;
      Ok (m ++ ms)
  end.

Definition not_paren (c : ascii) : bool :=
  negb (Ascii.eqb c "(") && negb (Ascii.eqb c ")").

(** ** main

    The table of constants is an input: a list of records in the order
    [pc.items()] yields them, the value and the uncertainty each given by
    the text [str] prints for it, which is also what [format] writes.
    The two boilerplate blocks [setup] and [cleanup] are fixed texts that
    no step inspects; they are parameters here.  The file starts empty
    (mode ['w']); a run gives the text written to it and the exception
    that ended the run, if any. *)

Record constant : Type := mk_constant {
  c_name : string;
  c_value : string;
  c_unit : string;
  c_uncertainty : string
}.

Definition newline : string := String "010"%char "".

(** The line written for one record; the arguments of [format] are
    evaluated from left to right. *)
Definition declare_line (c : constant) : result string :=
  unit <- format_unit (c_unit c) ;;
  uncertain <- format_uncertain_value (c_value c) (c_uncertainty c) ;;
  Ok ("\physicalconstants@declare{" ++ c_name c ++ "}{" ++ c_value c
      ++ "}{" ++ unit ++ "}{" ++ c_uncertainty c ++ "}{" ++ uncertain
      ++ "}" ++ newline).

(** The [for] loop, from the text written so far. *)
Fixpoint write_declarations (records : list constant) (written : string)
  : string * option exn :=
  match records with
  | [] => (written, None)
  | c :: records' =>
      match declare_line c with
      | Ok line => write_declarations records' (written ++ line)
      | Raise e => (written, Some e)
      end
  end.

Definition main (setup cleanup : string) (records : list constant)
  : string * option exn :=
  match write_declarations records ("" ++ setup) with
  | (written, None) => (written ++ cleanup, None)
  | (written, Some e) => (written, Some e)
  end.

(** A decomposition with the exponent marker and the exponent [z]. *)
Definition with_exponent (p : number_parts) (z : Z) : number_parts :=
  mk_parts (p_sign p) (p_int p) (p_point p) (p_frac p) "e" (py_str z).

(** A record that [main] can write: its unit is a well-formed expression
    over the symbols of the table; its value and uncertainty are literals
    in each of which the exponent marker and the exponent group come
    together or not at all; the uncertainty's digits read as an integer
    below [2^1024]; and the discrepancy is defined and at most
    [pad_limit]. *)
Definition writable (c : constant) : Prop :=
  (exists tokens,
      c_unit c = unit_text tokens
      /\ Forall well_formed_token tokens
      /\ Forall (fun t => in_table (token_base t)) tokens)
  /\ (exists val_parts unc_parts n d,
         fullmatch_groups (c_value c) = Ok val_parts
         /\ fullmatch_groups (c_uncertainty c) = Ok unc_parts
         /\ paired val_parts /\ paired unc_parts
         /\ py_int (unc_digits_of unc_parts) = Ok n /\ (n < 2 ^ 1024)%Z
         /\ discrepancy val_parts unc_parts = Ok d /\ (d <= pad_limit)%Z).

(** * Properties *)

(** ** Strings *)

Section StringFacts.

Lemma append_nil_r (s : string) : s ++ "" = s.
Proof. induction s as [|c s IH]; simpl; [reflexivity | now rewrite IH]. Qed.

Lemma append_assoc (s t u : string) : (s ++ t) ++ u = s ++ t ++ u.
Proof. induction s as [|c s IH]; simpl; [reflexivity | now rewrite IH]. Qed.

Lemma length_append (s t : string) :
  String.length (s ++ t) = (String.length s + String.length t)%nat.
Proof. induction s as [|c s IH]; simpl; [reflexivity | now rewrite IH]. Qed.

Lemma forallb_append (p : ascii -> bool) (s t : string) :
  Str.forallb p (s ++ t) = Str.forallb p s && Str.forallb p t.
Proof.
  induction s as [|c s IH]; simpl; [reflexivity|].
  now rewrite IH, andb_assoc.
Qed.

Lemma forallb_replicate (p : ascii -> bool) (n : nat) (c : ascii) :
  p c = true -> Str.forallb p (Str.replicate n c) = true.
Proof. intros H. induction n as [|n IH]; simpl; [reflexivity | now rewrite H]. Qed.

Lemma length_replicate (n : nat) (c : ascii) :
  String.length (Str.replicate n c) = n.
Proof. induction n as [|n IH]; simpl; [reflexivity | now rewrite IH]. Qed.

Lemma last_append (prev : option ascii) (s t : string) :
  Str.last prev (s ++ t) = Str.last (Str.last prev s) t.
Proof. revert prev. induction s as [|c s IH]; simpl; intros; [reflexivity | apply IH]. Qed.

Lemma truthy_false (s : string) : Str.truthy s = false <-> s = "".
Proof. destruct s; simpl; split; intros H; (reflexivity || discriminate). Qed.

Lemma truthy_true (s : string) : Str.truthy s = true <-> s <> "".
Proof. destruct s; simpl; split; intros H; (reflexivity || discriminate || congruence). Qed.

End StringFacts.

(** ** The matcher against a declarative reading of the patterns *)

Module ReFacts.
Import Re.

Lemma run_star_den (p : ascii -> bool) (s : string) (g : groups) (o : outcome) :
  In o (run_star p s g) <->
  exists t rest, Str.forallb p t = true /\ s = t ++ rest /\ o = (t, rest, g).
Proof.
  revert o. induction s as [|c s IH]; intros o; simpl.
  - split.
    + intros [<-|[]]. now exists "", "".
    + intros (t & rest & _ & E & ->). destruct t; [|discriminate].
      simpl in E. subst rest. now left.
  - destruct (p c) eqn:Hc.
    + rewrite in_app_iff, in_map_iff. split.
      * intros [(o' & <- & Hin)|[<-|[]]].
        -- apply IH in Hin. destruct Hin as (t & rest & Ht & -> & ->).
           exists (String c t), rest. simpl. now rewrite Hc, Ht.
        -- now exists "", (String c s).
      * intros (t & rest & Ht & E & ->). destruct t as [|c' t].
        -- simpl in E. subst rest. right. now left.
        -- simpl in E, Ht. injection E as <- ->.
           apply andb_prop in Ht. destruct Ht as [_ Ht].
           left. exists (t, rest, g). split; [reflexivity|].
           apply IH. now exists t, rest.
    + split.
      * intros [<-|[]]. now exists "", (String c s).
      * intros (t & rest & Ht & E & ->). destruct t as [|c' t].
        -- simpl in E. subst rest. now left.
        -- simpl in E, Ht. injection E as <- ->.
           rewrite Hc in Ht. discriminate.
Qed.

(** The matcher lists exactly the ways the declarative reading allows. *)
Lemma run_den (r : regex) :
  forall prev s g o, In o (run r prev s g) <-> den r prev s g o.
Proof.
  induction r as [p|r1 IH1 r2 IH2|r IH|p|p|n r IH|]; intros prev s g o; simpl.
  - destruct s as [|c s].
    + split; [intros []|]. intros (c & rest & _ & E & _). discriminate.
    + destruct (p c) eqn:Hc.
      * split.
        -- intros [<-|[]]. now exists c, s.
        -- intros (c' & rest & _ & E & ->). injection E as <- <-. now left.
      * split; [intros []|].
        intros (c' & rest & Hc' & E & _). injection E as <- <-. congruence.
  - rewrite in_flat_map. split.
    + intros ([[t1 s1] g1] & H1 & H2). rewrite in_map_iff in H2.
      destruct H2 as ([[t2 s2] g2] & <- & H2).
      exists t1, s1, g1, t2, s2, g2.
      repeat split; [now apply IH1 | now apply IH2].
    + intros (t1 & s1 & g1 & t2 & s2 & g2 & H1 & H2 & ->).
      exists (t1, s1, g1). split; [now apply IH1|].
      rewrite in_map_iff. exists (t2, s2, g2). split; [reflexivity|].
      now apply IH2.
  - rewrite in_app_iff, IH. simpl. intuition.
  - apply run_star_den.
  - destruct s as [|c s].
    + split; [intros []|]. intros (c & t & rest & _ & _ & E & _). discriminate.
    + destruct (p c) eqn:Hc.
      * rewrite in_map_iff. split.
        -- intros (o' & <- & Hin). apply run_star_den in Hin.
           destruct Hin as (t & rest & Ht & -> & ->). now exists c, t, rest.
        -- intros (c' & t & rest & _ & Ht & E & ->). injection E as <- ->.
           exists (t, rest, g). split; [reflexivity|].
           apply run_star_den. now exists t, rest.
      * split; [intros []|].
        intros (c' & t & rest & Hc' & _ & E & _). injection E as <- _. congruence.
  - rewrite in_map_iff. split.
    + intros ([[t rest] g'] & <- & Hin). exists t, rest, g'.
      split; [now apply IH | reflexivity].
    + intros (t & rest & g' & Hd & ->). exists (t, rest, g').
      split; [reflexivity | now apply IH].
  - destruct (at_boundary prev s).
    + simpl. intuition.
    + simpl. intuition discriminate.
Qed.

(** Every way of matching splits the subject into what was consumed and
    what is left. *)
Lemma den_split (r : regex) :
  forall prev s g t rest g', den r prev s g (t, rest, g') -> s = t ++ rest.
Proof.
  induction r as [p|r1 IH1 r2 IH2|r IH|p|p|n r IH|]; intros prev s g t rest g'; simpl.
  - intros (c & rest' & _ & -> & [= -> -> _]). reflexivity.
  - intros (t1 & s1 & g1 & t2 & s2 & g2 & H1 & H2 & [= -> -> _]).
    apply IH1 in H1. apply IH2 in H2. subst. now rewrite append_assoc.
  - intros [H|[= -> -> _]]; [now apply IH in H | reflexivity].
  - intros (t' & rest' & _ & -> & [= -> -> _]). reflexivity.
  - intros (c & t' & rest' & _ & _ & -> & [= -> -> _]). reflexivity.
  - intros (t' & rest' & g'' & H & [= -> -> _]). now apply IH in H.
  - intros [_ [= -> -> _]]. reflexivity.
Qed.

Lemma run_split (r : regex) prev s g t rest g' :
  In (t, rest, g') (run r prev s g) -> s = t ++ rest.
Proof. intros H. apply run_den in H. now apply den_split in H. Qed.

Lemma find_ends_some (l : list outcome) (o : outcome) :
  find ends l = Some o -> In o l /\ exists t g, o = (t, "", g).
Proof.
  intros H. apply find_some in H. destruct H as [Hin He]. split; [assumption|].
  destruct o as [[t rest] g]. simpl in He. destruct rest; [|discriminate].
  now exists t, g.
Qed.

Lemma find_ends_none (l : list outcome) t g :
  find ends l = None -> ~ In (t, "", g) l.
Proof.
  intros H Hin. apply (find_none _ _ H) in Hin. discriminate.
Qed.

(** [fullmatch] succeeds exactly when some way of matching consumes the
    whole subject, and its groups are those of one such way. *)
Lemma fullmatch_some (r : regex) (s : string) (g : groups) :
  fullmatch r s = Some g -> den r None s no_groups (s, "", g).
Proof.
  unfold fullmatch. destruct (find ends _) as [[[t rest] g']|] eqn:F; [|discriminate].
  intros [= <-]. apply find_ends_some in F.
  destruct F as [Hin (t' & g'' & [= -> -> ->])].
  pose proof (run_split _ _ _ _ _ _ _ Hin) as E.
  rewrite append_nil_r in E. subst t'. now apply run_den.
Qed.

Lemma fullmatch_none (r : regex) (s : string) :
  fullmatch r s = None -> forall g, ~ den r None s no_groups (s, "", g).
Proof.
  unfold fullmatch. destruct (find ends _) as [[[t rest] g']|] eqn:F; [discriminate|].
  intros _ g Hd. apply run_den in Hd. now apply (find_ends_none _ _ _ F) in Hd.
Qed.

(** The shapes of group the two patterns are built from. *)

Lemma den_group_opt_class n p prev s g t rest g' :
  den (Group n (Opt (Class p))) prev s g (t, rest, g') <->
  optional p t /\ s = t ++ rest /\ g' = set_group n t g.
Proof.
  simpl. split.
  - intros (t' & rest' & g'' & [(c & r & Hc & -> & [= -> -> ->])|[= -> -> ->]]
            & [= -> -> ->]).
    + repeat split. right. now exists c.
    + repeat split. now left.
  - intros ([->|(c & Hc & ->)] & -> & ->).
    + exists "", rest, g. split; [now right | reflexivity].
    + exists (String c ""), rest, g. split; [|reflexivity].
      left. now exists c, rest.
Qed.

Lemma den_group_plus n p prev s g t rest g' :
  den (Group n (Plus p)) prev s g (t, rest, g') <->
  Str.forallb p t = true /\ t <> "" /\ s = t ++ rest /\ g' = set_group n t g.
Proof.
  simpl. split.
  - intros (t' & rest' & g'' & (c & u & r & Hc & Hu & -> & [= -> -> ->])
            & [= -> -> ->]).
    simpl. rewrite Hc, Hu. repeat split. discriminate.
  - intros (Ht & Hne & -> & ->). destruct t as [|c u]; [congruence|].
    simpl in Ht. apply andb_prop in Ht. destruct Ht as [Hc Hu].
    exists (String c u), rest, g. split; [|reflexivity].
    now exists c, u, rest.
Qed.

Lemma den_group_star n p prev s g t rest g' :
  den (Group n (Star p)) prev s g (t, rest, g') <->
  Str.forallb p t = true /\ s = t ++ rest /\ g' = set_group n t g.
Proof.
  simpl. split.
  - intros (t' & rest' & g'' & (u & r & Hu & -> & [= -> -> ->]) & [= -> -> ->]).
    now repeat split.
  - intros (Ht & -> & ->). exists t, rest, g. split; [|reflexivity].
    now exists t, rest.
Qed.

Lemma den_group_signed n p q prev s g t rest g' :
  den (Group n (Opt (Class p) >> Star q)) prev s g (t, rest, g') <->
  (exists sg ds, t = sg ++ ds /\ optional p sg /\ Str.forallb q ds = true)
  /\ s = t ++ rest /\ g' = set_group n t g.
Proof.
  simpl. split.
  - intros (t' & rest' & g'' &
            (t1 & s1 & g1 & t2 & s2 & g2 & H1 & K & [= -> -> ->]) & [= -> -> ->]).
    destruct H1 as [(c & r' & Hc & -> & [= -> -> ->])|[= -> -> ->]];
      destruct K as (u & r & Hu & -> & [= -> -> ->]).
    + repeat split. exists (String c ""), u. repeat split; [|assumption].
      right. now exists c.
    + repeat split. exists "", u. repeat split; [|assumption]. now left.
  - intros ((sg & ds & -> & Hsg & Hds) & -> & ->).
    exists (sg ++ ds), rest, g. split; [|reflexivity].
    exists sg, (ds ++ rest), g, ds, rest, g. repeat split.
    + destruct Hsg as [->|(c & Hc & ->)]; [now right|].
      left. now exists c, (ds ++ rest).
    + now exists ds, rest.
Qed.

End ReFacts.

(** ** number_regex decides the decimal-literal grammar *)

Section NumberRegex.
Import Re ReFacts.

Lemma parts_of_groups_of (p : number_parts) : parts_of (groups_of p) = p.
Proof. now destruct p. Qed.

Lemma number_regex_den prev s t rest g :
  den number_regex prev s no_groups (t, rest, g) <->
  exists p, well_formed p /\ t = text_of p /\ s = t ++ rest /\ g = groups_of p.
Proof.
  unfold number_regex. split.
  - intros (t1 & s1 & g1 & u1 & s1' & g1' & H1 & K1 & [= -> -> ->]).
    apply den_group_opt_class in H1. destruct H1 as (W1 & -> & ->).
    destruct K1 as (t2 & s2 & g2 & u2 & s2' & g2' & H2 & K2 & [= -> -> ->]).
    apply den_group_plus in H2. destruct H2 as (W2 & N2 & -> & ->).
    destruct K2 as (t3 & s3 & g3 & u3 & s3' & g3' & H3 & K3 & [= -> -> ->]).
    apply den_group_opt_class in H3. destruct H3 as (W3 & -> & ->).
    destruct K3 as (t4 & s4 & g4 & u4 & s4' & g4' & H4 & K4 & [= -> -> ->]).
    apply den_group_star in H4. destruct H4 as (W4 & -> & ->).
    destruct K4 as (t5 & s5 & g5 & u5 & s5' & g5' & H5 & K5 & [= -> -> ->]).
    apply den_group_opt_class in H5. destruct H5 as (W5 & -> & ->).
    apply den_group_signed in K5. destruct K5 as (W6 & -> & ->).
    exists (mk_parts t1 t2 t3 t4 t5 u5). repeat split; try assumption.
    unfold text_of; simpl. now rewrite !append_assoc.
  - intros (p & [W1 W2 N2 W3 W4 W5 W6] & -> & -> & ->).
    destruct p as [a b c d e f]; unfold text_of, groups_of; simpl in *.
    rewrite !append_assoc.
    eexists a, _, _, _, _, _. split; [apply den_group_opt_class; eauto|].
    split; [|reflexivity].
    eexists b, _, _, _, _, _. split; [apply den_group_plus; eauto|].
    split; [|reflexivity].
    eexists c, _, _, _, _, _. split; [apply den_group_opt_class; eauto|].
    split; [|reflexivity].
    eexists d, _, _, _, _, _. split; [apply den_group_star; eauto|].
    split; [|reflexivity].
    eexists e, _, _, _, _, _. split; [apply den_group_opt_class; eauto|].
    split; [|reflexivity].
    apply den_group_signed; eauto.
Qed.

(** A successful [fullmatch] returns a decomposition of the subject that
    obeys the grammar. *)
Lemma fullmatch_groups_sound (s : string) (p : number_parts) :
  fullmatch_groups s = Ok p -> well_formed p /\ s = text_of p.
Proof.
  unfold fullmatch_groups. destruct (fullmatch number_regex s) as [g|] eqn:F;
    [|discriminate].
  intros [= <-]. apply fullmatch_some in F. apply number_regex_den in F.
  destruct F as (p & W & E & _ & ->). now rewrite parts_of_groups_of.
Qed.

(** Every literal of the grammar is matched. *)
Lemma fullmatch_groups_complete (s : string) :
  decimal_literal s -> exists p, fullmatch_groups s = Ok p.
Proof.
  intros (p & W & ->). unfold fullmatch_groups.
  destruct (fullmatch number_regex (text_of p)) as [g|] eqn:F; [now eexists|].
  exfalso. apply (fullmatch_none _ _ F (groups_of p)).
  apply number_regex_den. exists p.
  split; [assumption|]. split; [reflexivity|].
  split; [now rewrite append_nil_r | reflexivity].
Qed.

(** The only failure of the decomposition is the [AttributeError] of
    [None.groups()], on the strings outside the grammar. *)
Lemma fullmatch_groups_error (s : string) (e : exn) :
  fullmatch_groups s = Raise e -> e = AttributeError /\ ~ decimal_literal s.
Proof.
  intros H. split.
  - unfold fullmatch_groups in H. destruct (fullmatch number_regex s);
      [discriminate | now injection H].
  - intros L. apply fullmatch_groups_complete in L. destruct L as [p L].
    congruence.
Qed.

Lemma fullmatch_groups_iff (s : string) :
  decimal_literal s <-> exists p, fullmatch_groups s = Ok p.
Proof.
  split; [apply fullmatch_groups_complete|].
  intros [p H]. apply fullmatch_groups_sound in H. now exists p.
Qed.

End NumberRegex.

(** ** Integers read and written in decimal *)

Section Decimal.

Lemma digit_not_sign (c : ascii) :
  is_digit c = true -> is_sign c = false.
Proof.
  destruct c as [[|] [|] [|] [|] [|] [|] [|] [|]]; vm_compute; congruence.
Qed.

Lemma uint_of_char_digit (c : ascii) (d : Decimal.uint) :
  is_digit c = true -> exists d', uint_of_char c (Some d) = Some d'.
Proof.
  destruct c as [[|] [|] [|] [|] [|] [|] [|] [|]]; vm_compute;
    try discriminate; intros _; eexists; reflexivity.
Qed.

Lemma uint_of_digit_run (s : string) :
  digit_run s -> exists d, NilEmpty.uint_of_string s = Some d.
Proof.
  unfold digit_run. induction s as [|c s IH]; simpl; intros H.
  - now exists Decimal.Nil.
  - apply andb_prop in H. destruct H as [Hc Hs].
    destruct (IH Hs) as [d ->]. now apply uint_of_char_digit.
Qed.

(** [int] reads every non-empty digit run, as a natural number. *)
Lemma py_int_digit_run (s : string) :
  digit_run s -> s <> "" -> exists n, py_int s = Ok n /\ (0 <= n)%Z.
Proof.
  intros H Hne. destruct s as [|c s]; [congruence|].
  destruct (uint_of_digit_run _ H) as [d Hd].
  assert (Hc : is_sign c = false).
  { apply digit_not_sign. unfold digit_run in H. simpl in H.
    now apply andb_prop in H. }
  exists (Z.of_uint d). split.
  - unfold py_int, NilZero.uint_of_string.
    destruct c as [[|] [|] [|] [|] [|] [|] [|] [|]];
      try (vm_compute in Hc; discriminate); now rewrite Hd.
  - unfold Z.of_uint. apply N2Z.is_nonneg.
Qed.

(** [int] fails on a bare sign and on nothing else the grammar lets
    through as an exponent. *)
Lemma py_int_signed_digit_run (s : string) :
  signed_digit_run s -> s <> "" -> s <> "+" -> s <> "-" ->
  exists n, py_int s = Ok n.
Proof.
  intros (sg & ds & -> & [->|(c & Hc & ->)] & Hds) Hne Hp Hm.
  - simpl in *. destruct (py_int_digit_run _ Hds Hne) as (n & Hn & _). now exists n.
  - assert (Hne' : ds <> "").
    { intros ->. unfold is_sign in Hc. apply orb_prop in Hc.
      destruct Hc as [Hc|Hc]; apply Ascii.eqb_eq in Hc; subst c; simpl in *; congruence. }
    destruct ds as [|c' ds]; [congruence|].
    destruct (uint_of_digit_run _ Hds) as [d Hd].
    unfold is_sign in Hc. apply orb_prop in Hc.
    destruct Hc as [Hc|Hc]; apply Ascii.eqb_eq in Hc; subst c;
      unfold py_int, NilZero.uint_of_string; simpl append; cbv beta iota;
      rewrite Hd; simpl; eexists; reflexivity.
Qed.

Lemma string_of_uint_digit_run (d : Decimal.uint) :
  digit_run (NilEmpty.string_of_uint d).
Proof.
  unfold digit_run. induction d; simpl; try assumption; reflexivity.
Qed.

(** [str] of a natural number is a non-empty digit run. *)
Lemma py_str_digit_run (n : Z) :
  (0 <= n)%Z -> digit_run (py_str n) /\ py_str n <> "".
Proof.
  intros Hn. unfold py_str. destruct n as [|p|p]; [| |lia].
  - split; [reflexivity | discriminate].
  - simpl. pose proof (DecimalPos.Unsigned.to_uint_nonnil p) as Hnil.
    unfold NilZero.string_of_uint.
    destruct (Pos.to_uint p) eqn:E; try congruence;
      (split; [rewrite <- E; apply string_of_uint_digit_run | discriminate]).
Qed.

(** [int(str(z)) = z] for the negative [z] that [format_uncertain_value]
    writes into the text it hands to [float]. *)
Lemma py_int_py_str_neg (z : Z) : (z < 0)%Z -> py_int (py_str z) = Ok z.
Proof.
  intros Hz. destruct z as [|p|p]; try lia.
  unfold py_str. simpl. unfold py_int.
  rewrite NilZero.usu by apply DecimalPos.Unsigned.to_uint_nonnil.
  simpl. unfold Z.of_uint. now rewrite DecimalPos.Unsigned.of_to.
Qed.

Lemma py_int_py_str_pos (p : positive) : py_int (py_str (Zpos p)) = Ok (Zpos p).
Proof.
  pose proof (DecimalPos.Unsigned.to_uint_nonnil p) as Hnil.
  destruct (py_str_digit_run (Zpos p) ltac:(lia)) as [Hr Hne].
  unfold py_str in *. simpl Z.to_int in *. simpl NilZero.string_of_int in *.
  pose proof (NilZero.usu _ Hnil) as U.
  destruct (NilZero.string_of_uint (Pos.to_uint p)) as [|c s] eqn:E; [congruence|].
  assert (Hc : is_sign c = false).
  { apply digit_not_sign. unfold digit_run in Hr. simpl in Hr.
    now apply andb_prop in Hr. }
  assert (V : Z.of_uint (Pos.to_uint p) = Zpos p).
  { unfold Z.of_uint. now rewrite DecimalPos.Unsigned.of_to. }
  unfold py_int. rewrite <- V.
  destruct c as [[|] [|] [|] [|] [|] [|] [|] [|]];
    try (vm_compute in Hc; discriminate); now rewrite U.
Qed.

(** [int(str(z)) = z]. *)
Lemma py_int_py_str (z : Z) : py_int (py_str z) = Ok z.
Proof.
  destruct z as [|p|p]; [reflexivity | apply py_int_py_str_pos|].
  apply py_int_py_str_neg. lia.
Qed.



End Decimal.

(** ** Rounding to binary64 *)

Section FloatFacts.
Local Open Scope Z_scope.

Lemma scaled_signs (num den e a b : Z) :
  0 <= num -> 0 < den -> Float.scaled num den e = (a, b) -> 0 <= a /\ 0 < b.
Proof.
  intros Hn Hd. unfold Float.scaled.
  destruct (0 <=? e) eqn:He; intros [= <- <-].
  - apply Z.leb_le in He. split; [assumption|].
    apply Z.mul_pos_pos; [assumption | now apply Z.pow_pos_nonneg].
  - apply Z.leb_gt in He. split; [|assumption].
    apply Z.mul_nonneg_nonneg; [assumption|]. apply Z.pow_nonneg. lia.
Qed.

Lemma round_half_even_nonneg (a b : Z) :
  0 <= a -> 0 < b -> 0 <= Float.round_half_even a b.
Proof.
  intros Ha Hb. unfold Float.round_half_even.
  pose proof (Z.div_pos a b Ha Hb).
  destruct (2 * (a mod b) <? b); [lia|].
  destruct (b <? 2 * (a mod b)); [lia|].
  destruct (Z.even (a / b)); lia.
Qed.

Lemma of_ratio_nonneg (num den m e : Z) :
  0 < den -> Float.of_ratio num den = Float.Finite m e -> 0 <= m.
Proof.
  intros Hd. unfold Float.of_ratio.
  destruct (num <=? 0) eqn:Hn; [intros [= <- _]; lia|].
  apply Z.leb_gt in Hn.
  destruct (Float.scaled num den (Float.exponent_of num den)) as [a b] eqn:S.
  destruct (_ || _); [discriminate|]. intros [= <- _].
  destruct (scaled_signs num den _ a b ltac:(lia) Hd S).
  now apply round_half_even_nonneg.
Qed.

Lemma ceil_nonneg (x : Float.t) (m e c : Z) :
  x = Float.Finite m e -> 0 <= m -> Float.ceil x = Ok c -> 0 <= c.
Proof.
  intros -> Hm. simpl. destruct (0 <=? e) eqn:He; intros [= <-].
  - apply Z.leb_le in He. apply Z.mul_nonneg_nonneg; [assumption|].
    now apply Z.pow_nonneg.
  - apply Z.leb_gt in He.
    assert (0 < 2 ^ (- e)) by (apply Z.pow_pos_nonneg; lia).
    assert (- m / 2 ^ (- e) <= 0); [|lia].
    apply Z.div_le_upper_bound; lia.
Qed.

Lemma pow10_pos (k : Z) : 0 <= k -> 0 < 10 ^ k.
Proof. intros. now apply Z.pow_pos_nonneg. Qed.

(** The ceiling of a rounded decimal, when there is one, is a natural
    number. *)
Lemma ceil_of_decimal_nonneg (n d c : Z) :
  Float.ceil (Float.of_decimal n d) = Ok c -> 0 <= c.
Proof.
  unfold Float.of_decimal. intros H.
  destruct (0 <=? d) eqn:Hd.
  - destruct (Float.of_ratio (n * 10 ^ d) 1) as [m e|] eqn:R; [|discriminate].
    apply (ceil_nonneg _ m e c eq_refl); [|assumption].
    apply (of_ratio_nonneg (n * 10 ^ d) 1 m e); [lia | assumption].
  - apply Z.leb_gt in Hd.
    destruct (Float.of_ratio n (10 ^ (- d))) as [m e|] eqn:R; [|discriminate].
    apply (ceil_nonneg _ m e c eq_refl); [|assumption].
    apply (of_ratio_nonneg n (10 ^ (- d)) m e); [|assumption].
    apply pow10_pos. lia.
Qed.

Lemma exponent_of_le (num den : Z) :
  Float.exponent_of num den <= Z.max (Z.log2 num - Z.log2 den - 52) (-1074).
Proof.
  unfold Float.exponent_of.
  destruct (Float.scaled _ _ _) as [a b]. destruct (a <? b * 2 ^ 52); lia.
Qed.

(** A decimal below [2^1024] scaled down by a power of ten rounds to a
    finite number. *)
Lemma of_decimal_finite (n d : Z) :
  n < 2 ^ 1024 -> d < 0 -> exists m e, Float.of_decimal n d = Float.Finite m e.
Proof.
  intros Hn Hd. unfold Float.of_decimal.
  destruct (0 <=? d) eqn:Hd'; [apply Z.leb_le in Hd'; lia|].
  unfold Float.of_ratio. destruct (n <=? 0) eqn:Hn0; [now eexists _, _|].
  apply Z.leb_gt in Hn0.
  destruct (Float.scaled _ _ _) as [a b].
  pose proof (exponent_of_le n (10 ^ (- d))) as He.
  assert (Hl : Z.log2 n < 1024) by (apply Z.log2_lt_pow2; lia).
  assert (Hden : 3 <= Z.log2 (10 ^ (- d))).
  { change 3 with (Z.log2 8). apply Z.log2_le_mono.
    transitivity (10 ^ 1); [lia|]. apply Z.pow_le_mono_r; lia. }
  assert (Hb : Float.exponent_of n (10 ^ (- d)) <= 970) by lia.
  destruct (971 <? _) eqn:H1; [apply Z.ltb_lt in H1; lia|].
  destruct (_ =? 971) eqn:H2; [apply Z.eqb_eq in H2; lia|].
  simpl. now eexists _, _.
Qed.

Lemma ceil_of_decimal_defined (n d : Z) :
  n < 2 ^ 1024 -> d < 0 -> exists c, Float.ceil (Float.of_decimal n d) = Ok c.
Proof.
  intros Hn Hd. destruct (of_decimal_finite n d Hn Hd) as (m & e & ->).
  simpl. now eexists.
Qed.

(** The ceiling in [exact_ceiling] is the mathematical one: the least
    integer [c] with [n * 10^d <= c]. *)
Lemma exact_ceiling_spec (n d : Z) :
  d < 0 ->
  n <= exact_ceiling n d * 10 ^ (- d)
  /\ (exact_ceiling n d - 1) * 10 ^ (- d) < n.
Proof.
  intros Hd. unfold exact_ceiling.
  destruct (0 <=? d) eqn:E; [apply Z.leb_le in E; lia|].
  assert (Hp : 0 < 10 ^ (- d)) by (apply pow10_pos; lia).
  pose proof (Z.div_mod (- n) (10 ^ (- d)) ltac:(lia)) as Hdm.
  pose proof (Z.mod_pos_bound (- n) (10 ^ (- d)) Hp) as Hb.
  nia.
Qed.

(** *** Where the ceiling survives the rounding *)

Lemma round_half_even_le (a b N : Z) :
  0 < b -> a <= N * b -> Float.round_half_even a b <= N.
Proof.
  intros Hb Ha. unfold Float.round_half_even.
  pose proof (Z.div_mod a b ltac:(lia)) as E.
  pose proof (Z.mod_pos_bound a b Hb) as Hr.
  destruct (2 * (a mod b) <? b) eqn:C1; [nia|]. apply Z.ltb_ge in C1.
  destruct (b <? 2 * (a mod b)); [nia|].
  destruct (Z.even (a / b)); nia.
Qed.

Lemma round_half_even_gt (a b N : Z) :
  0 < b -> b < 2 * (a - N * b) -> N < Float.round_half_even a b.
Proof.
  intros Hb Ha. unfold Float.round_half_even.
  pose proof (Z.div_mod a b ltac:(lia)) as E.
  pose proof (Z.mod_pos_bound a b Hb) as Hr.
  destruct (2 * (a mod b) <? b) eqn:C1.
  - apply Z.ltb_lt in C1. nia.
  - apply Z.ltb_ge in C1. destruct (b <? 2 * (a mod b)) eqn:C2.
    + nia.
    + apply Z.ltb_ge in C2. destruct (Z.even (a / b)); nia.
Qed.

Lemma ceil_div_unique (m q c : Z) :
  0 < q -> (c - 1) * q < m -> m <= c * q -> - (- m / q) = c.
Proof.
  intros Hq H1 H2.
  pose proof (Z.div_mod (- m) q ltac:(lia)) as E.
  pose proof (Z.mod_pos_bound (- m) q Hq) as Hr.
  nia.
Qed.

(** For a numerator below [2^53] the exponent is negative and fine
    enough that one unit of the denominator is more than half a unit in
    the last place. *)
Lemma exponent_of_fine (n den : Z) :
  0 < n < 2 ^ 53 -> 8 <= den < 2 ^ 1022 ->
  Float.exponent_of n den < 0
  /\ den < 2 * 2 ^ (- Float.exponent_of n den).
Proof.
  intros [Hn0 Hn] [Hd0 Hd]. unfold Float.exponent_of.
  set (l := Z.log2 n - Z.log2 den).
  assert (Ln : 0 <= Z.log2 n < 53).
  { split; [apply Z.log2_nonneg | apply Z.log2_lt_pow2; lia]. }
  assert (Ld : 3 <= Z.log2 den < 1022).
  { split; [change 3 with (Z.log2 8); apply Z.log2_le_mono; lia
           | apply Z.log2_lt_pow2; lia]. }
  assert (Sd : den < 2 ^ (Z.log2 den + 1)).
  { pose proof (Z.log2_spec den ltac:(lia)) as S.
    replace (Z.log2 den + 1) with (Z.succ (Z.log2 den)) by lia. lia. }
  unfold Float.scaled. destruct (0 <=? l - 52) eqn:E0;
    [apply Z.leb_le in E0; unfold l in E0; lia|].
  destruct (n * 2 ^ (- (l - 52)) <? den * 2 ^ 52) eqn:T.
  - rewrite Z.max_l by (unfold l; lia). split; [unfold l; lia|].
    assert (2 ^ (Z.log2 den + 1) <= 2 ^ (- (l - 53))).
    { apply Z.pow_le_mono_r; unfold l; lia. }
    assert (0 < 2 ^ (- (l - 53))) by (apply Z.pow_pos_nonneg; unfold l; lia).
    lia.
  - apply Z.ltb_ge in T. rewrite Z.max_l by (unfold l; lia).
    split; [unfold l; lia|].
    assert (P : 0 < 2 ^ (- (l - 52))) by (apply Z.pow_pos_nonneg; unfold l; lia).
    assert (Q : (2 ^ 52 : Z) * 2 = 2 ^ 53) by reflexivity.
    nia.
Qed.

(** For an integer below [2^53] scaled down by at most [10^307] the
    ceiling of the rounded number is the exact ceiling. *)
Theorem ceil_of_decimal_exact (n d : Z) :
  0 < n < 2 ^ 53 -> -307 <= d < 0 ->
  Float.ceil (Float.of_decimal n d) = Ok (exact_ceiling n d).
Proof.
  intros Hn Hd. unfold Float.of_decimal, exact_ceiling.
  destruct (0 <=? d) eqn:E0; [apply Z.leb_le in E0; lia|].
  set (den := 10 ^ (- d)).
  assert (Hden : 8 <= den < 2 ^ 1022).
  { unfold den. split.
    - transitivity (10 ^ 1); [lia|]. apply Z.pow_le_mono_r; lia.
    - apply Z.le_lt_trans with (10 ^ 307); [apply Z.pow_le_mono_r; lia|].
      reflexivity. }
  destruct (exponent_of_fine n den Hn Hden) as [He Hfine].
  unfold Float.of_ratio.
  destruct (n <=? 0) eqn:N0; [apply Z.leb_le in N0; lia|].
  set (e := Float.exponent_of n den) in *.
  unfold Float.scaled. destruct (0 <=? e) eqn:E1; [apply Z.leb_le in E1; lia|].
  destruct (971 <? e) eqn:E2; [apply Z.ltb_lt in E2; lia|].
  destruct (e =? 971) eqn:E3; [apply Z.eqb_eq in E3; lia|].
  simpl. rewrite E1. f_equal.
  set (c := - (- n / den)).
  assert (Hc : n <= c * den /\ (c - 1) * den < n).
  { pose proof (exact_ceiling_spec n d ltac:(lia)) as X.
    unfold exact_ceiling in X. rewrite E0 in X. exact X. }
  assert (P : 0 < 2 ^ (- e)) by (apply Z.pow_pos_nonneg; lia).
  apply ceil_div_unique; [assumption| |].
  - apply round_half_even_gt; [lia|]. nia.
  - apply round_half_even_le; [lia|]. nia.
Qed.

End FloatFacts.

(** ** format_uncertain_value, step by step *)

Section UncertainValue.
Local Open Scope Z_scope.

Lemma digit_not_marker (c : ascii) :
  is_digit c = true -> Ascii.eqb c "e" = false.
Proof.
  destruct c as [[|] [|] [|] [|] [|] [|] [|] [|]]; vm_compute; congruence.
Qed.

Lemma split_marker_digits (m x : string) :
  digit_run m -> split_marker (m ++ String "e" x) = Some (m, x).
Proof.
  unfold digit_run. induction m as [|c m IH]; simpl; intros H; [reflexivity|].
  apply andb_prop in H. destruct H as [Hc Hm].
  now rewrite (digit_not_marker c Hc), (IH Hm).
Qed.

(** The text handed to [float] reads as the digits scaled by the power
    of ten. *)
Lemma py_float_formatted (m : string) (n d : Z) :
  digit_run m -> py_int m = Ok n -> d < 0 ->
  py_float (m ++ "e" ++ py_str d) = Ok (Float.of_decimal n d).
Proof.
  intros Hm Hn Hd. unfold py_float. simpl append.
  rewrite (split_marker_digits m _ Hm). unfold digit_run in Hm. rewrite Hm.
  now rewrite Hn, (py_int_py_str_neg d Hd).
Qed.

Lemma unc_digits_run (unc_parts : number_parts) :
  well_formed unc_parts ->
  digit_run (unc_digits_of unc_parts) /\ unc_digits_of unc_parts <> "".
Proof.
  intros [_ Hi Hne _ Hf _ _]. unfold unc_digits_of, digit_run in *.
  rewrite forallb_append, Hi, Hf. split; [reflexivity|].
  destruct (p_int unc_parts); [congruence | discriminate].
Qed.

Lemma py_int_error (s : string) (e : exn) : py_int s = Raise e -> e = ValueError.
Proof.
  unfold py_int. destruct (match s with "" => _ | _ => _ end); [discriminate|].
  now intros [= <-].
Qed.

Lemma exponent_value_error (s : string) (e : exn) :
  exponent_value s = Raise e -> e = ValueError.
Proof.
  unfold exponent_value. destruct (Str.truthy s); [apply py_int_error | discriminate].
Qed.

Lemma exp_discrepancy_eq (val_parts unc_parts : number_parts) :
  exp_discrepancy_of val_parts unc_parts =
  (val_exp <- exponent_value (p_exp val_parts) ;;
   unc_exp <- exponent_value (p_exp unc_parts) ;;
   Ok ((unc_exp - Str.len (p_frac unc_parts))
       - (val_exp - Str.len (p_frac val_parts)))).
Proof. reflexivity. Qed.

(** Reading the exponent off the digits, as the function does, is
    reading it by the marker, as the specification does, for a literal that
    has the marker and the exponent digits together or not at all. *)
Lemma exponent_value_by_marker (p : number_parts) :
  (p_marker p = "" <-> p_exp p = "") ->
  exponent_value (p_exp p) = marker_exponent p.
Proof.
  intros H. unfold exponent_value, marker_exponent.
  destruct (Str.truthy (p_exp p)) eqn:Te, (Str.truthy (p_marker p)) eqn:Tm;
    try reflexivity.
  - apply truthy_true in Te. apply truthy_false in Tm. tauto.
  - apply truthy_false in Te. apply truthy_true in Tm. tauto.
Qed.

(** On paired literals the discrepancy the function computes is the one
    the specification defines. *)
Lemma discrepancy_paired (val_parts unc_parts : number_parts) :
  paired val_parts -> paired unc_parts ->
  discrepancy val_parts unc_parts = exp_discrepancy_of val_parts unc_parts.
Proof.
  intros Pv Pu. unfold discrepancy, least_significant_exponent, exp_discrepancy_of.
  rewrite <- (exponent_value_by_marker _ Pv), <- (exponent_value_by_marker _ Pu).
  destruct (exponent_value (p_exp val_parts)) as [a|e1] eqn:E1;
    destruct (exponent_value (p_exp unc_parts)) as [b|e2] eqn:E2; simpl;
    try reflexivity.
  apply exponent_value_error in E1, E2. now subst.
Qed.

Lemma repeat_char_ok (c : ascii) (d : Z) :
  d < 2 ^ 63 -> Str.repeat_char c d = Ok (Str.replicate (Z.to_nat d) c).
Proof.
  intros H. unfold Str.repeat_char.
  destruct (2 ^ 63 <=? d) eqn:E; [apply Z.leb_le in E; lia | reflexivity].
Qed.

Lemma repeat_char_overflow (c : ascii) (d : Z) :
  2 ^ 63 <= d -> Str.repeat_char c d = Raise OverflowError.
Proof.
  intros H. unfold Str.repeat_char.
  destruct (2 ^ 63 <=? d) eqn:E; [reflexivity | apply Z.leb_gt in E; lia].
Qed.

Lemma pad_limit_fits (d : Z) : d <= pad_limit -> d < 2 ^ 63.
Proof. unfold pad_limit. lia. Qed.

(** The function, once both decompositions and the value of the
    uncertainty's digits are known. *)
Lemma format_uncertain_value_eq (value uncertainty : string)
  (val_parts unc_parts : number_parts) (n : Z) :
  fullmatch_groups value = Ok val_parts ->
  fullmatch_groups uncertainty = Ok unc_parts ->
  py_int (unc_digits_of unc_parts) = Ok n ->
  format_uncertain_value value uncertainty =
  if n =? 0 then Ok (join_parts val_parts "0")
  else
    d <- exp_discrepancy_of val_parts unc_parts ;;
    if d <? 0 then
      c <- Float.ceil (Float.of_decimal n d) ;;
      Ok (join_parts val_parts (py_str c))
    else
      zeros <- Str.repeat_char "0" d ;;
      Ok (join_parts val_parts (unc_digits_of unc_parts ++ zeros)).
Proof.
  intros Hv Hu Hn. unfold format_uncertain_value.
  rewrite Hv, Hu. simpl bind. fold (unc_digits_of unc_parts). rewrite Hn.
  simpl bind. destruct (n =? 0); [reflexivity|]. simpl negb. cbv iota.
  rewrite exp_discrepancy_eq.
  destruct (exponent_value (p_exp val_parts)) as [a|e1]; [|reflexivity].
  destruct (exponent_value (p_exp unc_parts)) as [b|e2]; [|reflexivity].
  simpl bind.
  destruct (_ <? 0) eqn:Hd.
  - apply Z.ltb_lt in Hd. apply fullmatch_groups_sound in Hu.
    destruct Hu as [Wu _]. destruct (unc_digits_run _ Wu) as [Hr _].
    pose proof (py_float_formatted _ n _ Hr Hn Hd) as Hf.
    simpl append in Hf. rewrite Hf. simpl bind.
    destruct (Float.ceil _); reflexivity.
  - destruct (Str.repeat_char _ _); reflexivity.
Qed.

Lemma exp_discrepancy_error (val_parts unc_parts : number_parts) (e : exn) :
  exp_discrepancy_of val_parts unc_parts = Raise e -> e = ValueError.
Proof.
  rewrite exp_discrepancy_eq.
  destruct (exponent_value (p_exp val_parts)) as [a|e1] eqn:E1; simpl.
  - destruct (exponent_value (p_exp unc_parts)) as [b|e2] eqn:E2; simpl;
      [discriminate|].
    intros [= <-]. now apply exponent_value_error in E2.
  - intros [= <-]. now apply exponent_value_error in E1.
Qed.

Lemma exponent_value_readable (p : number_parts) :
  well_formed p -> exponent_readable p ->
  exists z, exponent_value (p_exp p) = Ok z.
Proof.
  intros W [Hp Hm]. unfold exponent_value.
  destruct (Str.truthy (p_exp p)) eqn:T; [|now eexists].
  apply truthy_true in T.
  apply py_int_signed_digit_run; [apply (wf_exp p W) | assumption..].
Qed.

Lemma exp_discrepancy_defined (val_parts unc_parts : number_parts) :
  well_formed val_parts -> well_formed unc_parts ->
  exponent_readable val_parts -> exponent_readable unc_parts ->
  exists d, exp_discrepancy_of val_parts unc_parts = Ok d.
Proof.
  intros Wv Wu Rv Ru. rewrite exp_discrepancy_eq.
  destruct (exponent_value_readable _ Wv Rv) as [a ->].
  destruct (exponent_value_readable _ Wu Ru) as [b ->].
  simpl. now eexists.
Qed.

(** *** Stripping the parenthetical *)

Lemma forallb_impl (p q : ascii -> bool) (s : string) :
  (forall c, p c = true -> q c = true) ->
  Str.forallb p s = true -> Str.forallb q s = true.
Proof.
  intros Hpq. induction s as [|c s IH]; simpl; [reflexivity|].
  intros H. apply andb_prop in H. destruct H as [Hc Hs].
  now rewrite (Hpq c Hc), (IH Hs).
Qed.

Lemma optional_forallb (p q : ascii -> bool) (s : string) :
  (forall c, p c = true -> q c = true) ->
  optional p s -> Str.forallb q s = true.
Proof.
  intros Hpq [->|(c & Hc & ->)]; simpl; [reflexivity|].
  now rewrite (Hpq c Hc).
Qed.

Lemma digit_not_paren (c : ascii) : is_digit c = true -> not_paren c = true.
Proof.
  destruct c as [[|] [|] [|] [|] [|] [|] [|] [|]]; vm_compute; congruence.
Qed.

Lemma sign_not_paren (c : ascii) : is_sign c = true -> not_paren c = true.
Proof.
  destruct c as [[|] [|] [|] [|] [|] [|] [|] [|]]; vm_compute; congruence.
Qed.

Lemma point_not_paren (c : ascii) : is_char "." c = true -> not_paren c = true.
Proof.
  destruct c as [[|] [|] [|] [|] [|] [|] [|] [|]]; vm_compute; congruence.
Qed.

Lemma drop_through_close (d b : string) :
  Str.forallb not_paren d = true -> drop_through ")" (d ++ String ")" b) = b.
Proof.
  induction d as [|c d IH]; simpl; intros H; [reflexivity|].
  apply andb_prop in H. destruct H as [Hc Hd].
  unfold not_paren in Hc. apply andb_prop in Hc. destruct Hc as [_ Hc].
  apply negb_true_iff in Hc. rewrite Hc. now apply IH.
Qed.

Lemma strip_parenthetical_open (a r : string) :
  Str.forallb not_paren a = true ->
  strip_parenthetical (a ++ String "(" r) = a ++ drop_through ")" r.
Proof.
  induction a as [|c a IH]; simpl; intros H; [reflexivity|].
  apply andb_prop in H. destruct H as [Hc Ha].
  unfold not_paren in Hc. apply andb_prop in Hc. destruct Hc as [Hc _].
  apply negb_true_iff in Hc. rewrite Hc. now rewrite (IH Ha).
Qed.

(** Removing the parenthetical from the formatted text gives back the
    literal the decomposition spells. *)
Lemma strip_join_parts (val_parts : number_parts) (digits : string) :
  well_formed val_parts -> digit_run digits ->
  strip_parenthetical (join_parts val_parts digits) = text_of val_parts.
Proof.
  intros [W1 W2 _ W3 W4 _ _] Hd. unfold join_parts, text_of.
  set (a := p_sign val_parts ++ p_int val_parts ++ p_point val_parts
            ++ p_frac val_parts).
  assert (Ha : Str.forallb not_paren a = true).
  { unfold a. rewrite !forallb_append.
    rewrite (optional_forallb _ _ _ sign_not_paren W1).
    rewrite (forallb_impl _ _ _ digit_not_paren W2).
    rewrite (optional_forallb _ _ _ point_not_paren W3).
    now rewrite (forallb_impl _ _ _ digit_not_paren W4). }
  replace (p_sign val_parts ++ p_int val_parts ++ p_point val_parts
           ++ p_frac val_parts ++ "(" ++ digits ++ ")"
           ++ p_marker val_parts ++ p_exp val_parts)
    with (a ++ String "(" (digits ++ String ")"
                             (p_marker val_parts ++ p_exp val_parts)))
    by (unfold a; now rewrite !append_assoc).
  rewrite (strip_parenthetical_open _ _ Ha).
  rewrite drop_through_close by (apply (forallb_impl _ _ _ digit_not_paren Hd)).
  unfold a. now rewrite !append_assoc.
Qed.

End UncertainValue.

(** ** What format_uncertain_value returns *)

Section UncertainValueClaims.
Local Open Scope Z_scope.

(** C1, as amended.  For every value and uncertainty that both fully
    match the decimal-literal grammar, every string that
    [format_uncertain_value] returns is the value's literal text, part by
    part, with a parenthesized non-empty digit run inserted after the
    fractional digits and before the exponent marker, and stripping the
    parenthetical gives back the value string exactly, which decomposes
    into the same parts again.  A string is returned whenever the
    uncertainty's digits are all zero, and otherwise whenever in both
    literals the exponent marker and the exponent group come together or
    not at all, the discrepancy is defined and at most [pad_limit], and
    the uncertainty's digits, read as an integer, are below [2^1024]. *)
Theorem C1_value_text_reproduced (value uncertainty : string) :
  decimal_literal value -> decimal_literal uncertainty ->
  exists val_parts unc_parts n,
    fullmatch_groups value = Ok val_parts
    /\ fullmatch_groups uncertainty = Ok unc_parts
    /\ py_int (unc_digits_of unc_parts) = Ok n
    /\ value = text_of val_parts
    /\ (n = 0
        \/ (paired val_parts /\ paired unc_parts
            /\ (exists d, discrepancy val_parts unc_parts = Ok d
                          /\ d <= pad_limit)
            /\ n < 2 ^ 1024) ->
        exists out, format_uncertain_value value uncertainty = Ok out)
    /\ (forall out,
          format_uncertain_value value uncertainty = Ok out ->
          exists digits,
            digit_run digits /\ digits <> ""
            /\ out = (p_sign val_parts ++ p_int val_parts
                      ++ p_point val_parts ++ p_frac val_parts
                      ++ "(" ++ digits ++ ")"
                      ++ p_marker val_parts ++ p_exp val_parts)%string
            /\ strip_parenthetical out = value
            /\ fullmatch_groups (strip_parenthetical out) = Ok val_parts).
Proof.
  intros Lv Lu.
  destruct (fullmatch_groups_complete _ Lv) as [pv Hv].
  destruct (fullmatch_groups_complete _ Lu) as [pu Hu].
  destruct (fullmatch_groups_sound _ _ Hv) as [Wv Ev].
  destruct (fullmatch_groups_sound _ _ Hu) as [Wu _].
  destruct (unc_digits_run _ Wu) as [Hr Hne].
  destruct (py_int_digit_run _ Hr Hne) as (n & Hn & Hn0).
  exists pv, pu, n. repeat (split; [assumption|]).
  rewrite (format_uncertain_value_eq _ _ _ _ _ Hv Hu Hn). split.
  - intros C. destruct (n =? 0) eqn:Z0; [now eexists|].
    apply Z.eqb_neq in Z0.
    destruct C as [C|(Pv & Pu & (d & Hd & Hl) & Hb)]; [contradiction|].
    rewrite (discrepancy_paired _ _ Pv Pu) in Hd. rewrite Hd. simpl bind.
    destruct (d <? 0) eqn:Hd0.
    + apply Z.ltb_lt in Hd0.
      destruct (ceil_of_decimal_defined n d Hb Hd0) as [c ->]. now eexists.
    + rewrite (repeat_char_ok _ d (pad_limit_fits d Hl)). now eexists.
  - intros out H.
    assert (S : forall digits, digit_run digits -> digits <> "" ->
              out = join_parts pv digits ->
              exists digits0, digit_run digits0 /\ digits0 <> ""
                /\ out = join_parts pv digits0
                /\ strip_parenthetical out = value
                /\ fullmatch_groups (strip_parenthetical out) = Ok pv).
    { intros digits D1 D2 ->. exists digits. repeat (split; [assumption|]).
      split; [reflexivity|].
      assert (R : strip_parenthetical (join_parts pv digits) = value)
        by (rewrite Ev; now apply strip_join_parts).
      split; [exact R | now rewrite R]. }
    destruct (n =? 0).
    + injection H as <-. apply (S "0"%string); [reflexivity | discriminate | reflexivity].
    + destruct (exp_discrepancy_of pv pu) as [d|e]; [|discriminate]. simpl bind in H.
      destruct (d <? 0).
      * destruct (Float.ceil (Float.of_decimal n d)) as [c|e] eqn:C; [|discriminate].
        injection H as <-. apply ceil_of_decimal_nonneg in C.
        destruct (py_str_digit_run c C) as [D1 D2]. now apply (S (py_str c)).
      * unfold Str.repeat_char in H. destruct (2 ^ 63 <=? d); [discriminate|].
        simpl bind in H. injection H as <-.
        apply (S (unc_digits_of pu ++ Str.replicate (Z.to_nat d) "0")%string);
          [| |reflexivity].
        -- unfold digit_run in *. rewrite forallb_append, Hr.
           now apply forallb_replicate.
        -- destruct (unc_digits_of pu); [congruence | discriminate].
Qed.

(** C1: a value and an uncertainty that both match the grammar and for
    which nothing is returned: [int("+")] raises. *)
Lemma C1_bare_sign_exponent :
  decimal_literal "1+" /\ decimal_literal "1"
  /\ format_uncertain_value "1+" "1" = Raise ValueError.
Proof.
  split; [|split].
  - apply fullmatch_groups_iff. eexists. vm_compute. reflexivity.
  - apply fullmatch_groups_iff. eexists. vm_compute. reflexivity.
  - vm_compute. reflexivity.
Qed.

Lemma C1_value_text_reproduced_witness :
  exists val_parts unc_parts n,
    fullmatch_groups "6.62607015e-34" = Ok val_parts
    /\ fullmatch_groups "0.00000081e-34" = Ok unc_parts
    /\ py_int (unc_digits_of unc_parts) = Ok n
    /\ "6.62607015e-34"%string = text_of val_parts
    /\ (n = 0
        \/ (paired val_parts /\ paired unc_parts
            /\ (exists d, discrepancy val_parts unc_parts = Ok d
                          /\ d <= pad_limit)
            /\ n < 2 ^ 1024) ->
        exists out,
          format_uncertain_value "6.62607015e-34" "0.00000081e-34" = Ok out)
    /\ (forall out,
          format_uncertain_value "6.62607015e-34" "0.00000081e-34" = Ok out ->
          exists digits,
            digit_run digits /\ digits <> ""
            /\ out = (p_sign val_parts ++ p_int val_parts
                      ++ p_point val_parts ++ p_frac val_parts
                      ++ "(" ++ digits ++ ")"
                      ++ p_marker val_parts ++ p_exp val_parts)%string
            /\ strip_parenthetical out = "6.62607015e-34"%string
            /\ fullmatch_groups (strip_parenthetical out) = Ok val_parts).
Proof.
  apply (C1_value_text_reproduced "6.62607015e-34" "0.00000081e-34").
  - apply fullmatch_groups_iff. eexists. vm_compute. reflexivity.
  - apply fullmatch_groups_iff. eexists. vm_compute. reflexivity.
Defined.

(** C2, as amended: [format_uncertain_value("1.234", "0.006")] returns
    ["1.234(0006)"]: the uncertainty's integer digit ["0"] is part of
    [unc_digits]. *)
Theorem C2_example_actual :
  format_uncertain_value "1.234" "0.006" = Ok "1.234(0006)"%string.
Proof. vm_compute. reflexivity. Qed.

(** C2: the literal the claim gives is not what is returned. *)
Lemma C2_example_differs :
  format_uncertain_value "1.234" "0.006" <> Ok "1.234(006)"%string.
Proof. vm_compute. discriminate. Qed.

(** C3, as amended: [format_uncertain_value("2.0", "0.003")] returns
    ["2.0(1)"]: the uncertainty has two fractional digits more than the
    value, so the discrepancy is [-2] and [0003e-2] is rounded up. *)
Theorem C3_example_actual :
  format_uncertain_value "2.0" "0.003" = Ok "2.0(1)"%string.
Proof. vm_compute. reflexivity. Qed.

(** C3: the literal the claim gives is not what is returned. *)
Lemma C3_example_differs :
  format_uncertain_value "2.0" "0.003" <> Ok "2.0(003)"%string.
Proof. vm_compute. discriminate. Qed.

(** C5, as amended.  For every well-formed value and non-zero
    uncertainty, in each of which the exponent marker and the exponent
    group come together or not at all, whose discrepancy is at least zero
    and at most [pad_limit], the displayed uncertainty digits are
    [unc_digits] followed by exactly [discrepancy] zero characters; and
    [format_uncertain_value("5", "12")] returns ["5(12)"]. *)
Theorem C5_zero_padding :
  (forall value uncertainty val_parts unc_parts n d,
      fullmatch_groups value = Ok val_parts ->
      fullmatch_groups uncertainty = Ok unc_parts ->
      paired val_parts -> paired unc_parts ->
      py_int (unc_digits_of unc_parts) = Ok n -> n <> 0 ->
      discrepancy val_parts unc_parts = Ok d -> 0 <= d -> d <= pad_limit ->
      exists pad,
        Str.len pad = d /\ Str.forallb (is_char "0") pad = true
        /\ format_uncertain_value value uncertainty
           = Ok (p_sign val_parts ++ p_int val_parts ++ p_point val_parts
                 ++ p_frac val_parts
                 ++ "(" ++ (unc_digits_of unc_parts ++ pad) ++ ")"
                 ++ p_marker val_parts ++ p_exp val_parts)%string)
  /\ format_uncertain_value "5" "12" = Ok "5(12)"%string.
Proof.
  split; [|vm_compute; reflexivity].
  intros value uncertainty pv pu n d Hv Hu Pv Pu Hn Hn0 Hd Hd0 Hl.
  exists (Str.replicate (Z.to_nat d) "0"). split; [|split].
  - unfold Str.len. rewrite length_replicate. lia.
  - now apply forallb_replicate.
  - rewrite (format_uncertain_value_eq _ _ _ _ _ Hv Hu Hn).
    rewrite (discrepancy_paired _ _ Pv Pu) in Hd.
    apply Z.eqb_neq in Hn0. rewrite Hn0, Hd. simpl bind.
    apply Z.ltb_ge in Hd0. rewrite Hd0.
    now rewrite (repeat_char_ok _ d (pad_limit_fits d Hl)).
Qed.

Lemma C5_zero_padding_witness :
  exists pad,
    Str.len pad = 3 /\ Str.forallb (is_char "0") pad = true
    /\ format_uncertain_value "1.5e6" "2e8"
       = Ok ("" ++ "1" ++ "." ++ "5" ++ "(" ++ ("2" ++ pad) ++ ")"
             ++ "e" ++ "6")%string.
Proof.
  apply (proj1 C5_zero_padding "1.5e6" "2e8"
           (mk_parts "" "1" "." "5" "e" "6") (mk_parts "" "2" "" "" "e" "8")
           2 3)%string;
    [ vm_compute; reflexivity | vm_compute; reflexivity
    | split; discriminate | split; discriminate
    | vm_compute; reflexivity | discriminate
    | vm_compute; reflexivity | lia | unfold pad_limit; lia ].
Defined.

(** C5, where it fails.  The value ["1-5"] has no exponent marker, so its
    exponent is zero and its discrepancy with the uncertainty ["1"] is
    zero: no zero is to be added.  The function reads the exponent [-5]
    off the exponent group and adds five zeros.  And for the value
    ["1e-9223372036854775808"] and the uncertainty ["1"] the discrepancy
    is [2^63] and the repeat raises [OverflowError]. *)
Lemma C5_padding_differs :
  (fullmatch_groups "1-5" = Ok (mk_parts "" "1" "" "" "" "-5")
   /\ fullmatch_groups "1" = Ok (mk_parts "" "1" "" "" "" "")
   /\ py_int (unc_digits_of (mk_parts "" "1" "" "" "" "")) = Ok 1
   /\ discrepancy (mk_parts "" "1" "" "" "" "-5")
                  (mk_parts "" "1" "" "" "" "") = Ok 0
   /\ format_uncertain_value "1-5" "1" = Ok "1(100000)-5"%string)
  /\ (fullmatch_groups "1e-9223372036854775808"
      = Ok (mk_parts "" "1" "" "" "e" "-9223372036854775808")
      /\ discrepancy (mk_parts "" "1" "" "" "e" "-9223372036854775808")
                     (mk_parts "" "1" "" "" "" "") = Ok (2 ^ 63)
      /\ format_uncertain_value "1e-9223372036854775808" "1"
         = Raise OverflowError).
Proof. vm_compute. repeat split. Qed.

(** C8.  [format_uncertain_value] fails with the error of a failed
    decomposition (the [AttributeError] of [None.groups()]) if and only
    if the value or the uncertainty does not fully match the
    decimal-literal grammar. *)
Theorem C8_malformed_iff (value uncertainty : string) :
  format_uncertain_value value uncertainty = Raise AttributeError
  <-> ~ decimal_literal value \/ ~ decimal_literal uncertainty.
Proof.
  destruct (fullmatch_groups value) as [pv|e] eqn:Hv.
  - destruct (fullmatch_groups uncertainty) as [pu|e] eqn:Hu.
    + destruct (fullmatch_groups_sound _ _ Hu) as [Wu _].
      destruct (unc_digits_run _ Wu) as [Hr Hne].
      destruct (py_int_digit_run _ Hr Hne) as (n & Hn & _).
      rewrite (format_uncertain_value_eq _ _ _ _ _ Hv Hu Hn). split.
      * intros H. exfalso. destruct (n =? 0); [discriminate|].
        destruct (exp_discrepancy_of pv pu) as [d|e] eqn:D.
        -- simpl bind in H. destruct (d <? 0).
           ++ destruct (Float.ceil (Float.of_decimal n d)) as [c|e] eqn:C;
                [discriminate|].
              destruct (Float.of_decimal n d); simpl in C; [discriminate|].
              injection C as <-. discriminate.
           ++ unfold Str.repeat_char in H.
              destruct (2 ^ 63 <=? d); discriminate.
        -- apply exp_discrepancy_error in D. subst e. discriminate.
      * intros [H|H]; exfalso; apply H; apply fullmatch_groups_iff; eauto.
    + destruct (fullmatch_groups_error _ _ Hu) as [-> Nu].
      unfold format_uncertain_value. rewrite Hv, Hu. simpl. tauto.
  - destruct (fullmatch_groups_error _ _ Hv) as [-> Nv].
    unfold format_uncertain_value. rewrite Hv. simpl. tauto.
Qed.

(** C9.  For every well-formed value, when the uncertainty's integer and
    fractional digits together are numerically zero the displayed
    uncertainty is the single digit ["0"], whatever the exponents; and
    [format_uncertain_value("9.81", "0")] returns ["9.81(0)"]. *)
Theorem C9_zero_uncertainty :
  (forall value uncertainty val_parts unc_parts,
      fullmatch_groups value = Ok val_parts ->
      fullmatch_groups uncertainty = Ok unc_parts ->
      py_int (unc_digits_of unc_parts) = Ok 0 ->
      format_uncertain_value value uncertainty
      = Ok (p_sign val_parts ++ p_int val_parts ++ p_point val_parts
            ++ p_frac val_parts ++ "(" ++ "0" ++ ")"
            ++ p_marker val_parts ++ p_exp val_parts)%string)
  /\ format_uncertain_value "9.81" "0" = Ok "9.81(0)"%string.
Proof.
  split; [|vm_compute; reflexivity].
  intros value uncertainty pv pu Hv Hu Hn.
  now rewrite (format_uncertain_value_eq _ _ _ _ _ Hv Hu Hn).
Qed.

Lemma C9_zero_uncertainty_witness :
  format_uncertain_value "6.02214076e23" "0.000e+"
  = Ok ("" ++ "6" ++ "." ++ "02214076" ++ "(" ++ "0" ++ ")"
        ++ "e" ++ "23")%string.
Proof.
  apply (proj1 C9_zero_uncertainty "6.02214076e23" "0.000e+"
           (mk_parts "" "6" "." "02214076" "e" "23")
           (mk_parts "" "0" "." "000" "e" "+"))%string;
    vm_compute; reflexivity.
Defined.

(** C4, as amended.  For every well-formed value and non-zero
    uncertainty, in each of which the exponent marker and the exponent
    group come together or not at all, whose discrepancy is negative, the
    displayed uncertainty digits are the integer ceiling of the binary64
    number nearest to [unc_digits] times [10^discrepancy]; whenever
    [unc_digits], read as an integer, is below [2^53] and the discrepancy
    is at least [-307], that is the exact integer ceiling of
    [unc_digits * 10^discrepancy]. *)
Theorem C4_ceiling_of_scaled_digits
  (value uncertainty : string) (val_parts unc_parts : number_parts) (n d : Z) :
  fullmatch_groups value = Ok val_parts ->
  fullmatch_groups uncertainty = Ok unc_parts ->
  paired val_parts -> paired unc_parts ->
  py_int (unc_digits_of unc_parts) = Ok n -> n <> 0 ->
  discrepancy val_parts unc_parts = Ok d -> d < 0 ->
  format_uncertain_value value uncertainty
  = (c <- Float.ceil (Float.of_decimal n d) ;;
     Ok (p_sign val_parts ++ p_int val_parts ++ p_point val_parts
         ++ p_frac val_parts ++ "(" ++ py_str c ++ ")"
         ++ p_marker val_parts ++ p_exp val_parts)%string)
  /\ (n < 2 ^ 53 -> -307 <= d ->
      format_uncertain_value value uncertainty
      = Ok (p_sign val_parts ++ p_int val_parts ++ p_point val_parts
            ++ p_frac val_parts ++ "(" ++ py_str (exact_ceiling n d) ++ ")"
            ++ p_marker val_parts ++ p_exp val_parts)%string).
Proof.
  intros Hv Hu Pv Pu Hn Hn0 Hd Hd0.
  rewrite (discrepancy_paired _ _ Pv Pu) in Hd.
  assert (E : format_uncertain_value value uncertainty
              = (c <- Float.ceil (Float.of_decimal n d) ;;
                 Ok (join_parts val_parts (py_str c)))).
  { rewrite (format_uncertain_value_eq _ _ _ _ _ Hv Hu Hn).
    apply Z.eqb_neq in Hn0. rewrite Hn0, Hd. simpl bind.
    apply Z.ltb_lt in Hd0. now rewrite Hd0. }
  split; [exact E|].
  intros Hb Hd1. rewrite E.
  destruct (fullmatch_groups_sound _ _ Hu) as [Wu _].
  destruct (unc_digits_run _ Wu) as [Hr Hne].
  destruct (py_int_digit_run _ Hr Hne) as (n' & Hn' & Hpos).
  assert (n' = n) by congruence. subst n'.
  rewrite ceil_of_decimal_exact by lia. reflexivity.
Qed.

Lemma C4_ceiling_of_scaled_digits_witness :
  format_uncertain_value "1.380649e-23" "1.3e-29"
  = (c <- Float.ceil (Float.of_decimal 13 (-1)) ;;
     Ok ("" ++ "1" ++ "." ++ "380649" ++ "(" ++ py_str c ++ ")"
         ++ "e" ++ "-23")%string)
  /\ (13 < 2 ^ 53 -> -307 <= -1 ->
      format_uncertain_value "1.380649e-23" "1.3e-29"
      = Ok ("" ++ "1" ++ "." ++ "380649" ++ "("
            ++ py_str (exact_ceiling 13 (-1)) ++ ")" ++ "e" ++ "-23")%string).
Proof.
  apply (C4_ceiling_of_scaled_digits "1.380649e-23" "1.3e-29"
           (mk_parts "" "1" "." "380649" "e" "-23")
           (mk_parts "" "1" "." "3" "e" "-29") 13 (-1))%string;
    [ vm_compute; reflexivity | vm_compute; reflexivity
    | split; discriminate | split; discriminate
    | vm_compute; reflexivity | discriminate
    | vm_compute; reflexivity | lia ].
Defined.

(** C4, where it fails.  The value ["1"] and the uncertainty ["1e-400"]
    are well formed, the uncertainty is not zero and the discrepancy is
    [-400]; the exact ceiling of [1 * 10^-400] is [1], but
    [float("1e-400")] is [0.0] and the displayed digits are ["0"].
    Likewise ["9007199254740992.1"], whose digits are one above
    [2^53 * 10], is displayed as [9007199254740992], one below its
    ceiling.  And the value ["1+5"] has no exponent marker, so that its
    discrepancy with the uncertainty ["1.5"] is [-1] and the ceiling of
    [15 * 10^-1] is [2]; the function reads the exponent [5] off the
    exponent group and displays the ceiling of [15 * 10^-6]. *)
Lemma C4_ceiling_lost_in_float :
  (fullmatch_groups "1" = Ok (mk_parts "" "1" "" "" "" "")
   /\ fullmatch_groups "1e-400" = Ok (mk_parts "" "1" "" "" "e" "-400")
   /\ py_int (unc_digits_of (mk_parts "" "1" "" "" "e" "-400")) = Ok 1
   /\ discrepancy (mk_parts "" "1" "" "" "" "")
                  (mk_parts "" "1" "" "" "e" "-400") = Ok (-400)
   /\ py_str (exact_ceiling 1 (-400)) = "1"%string
   /\ format_uncertain_value "1" "1e-400" = Ok "1(0)"%string)
  /\ (fullmatch_groups "9007199254740992.1"
      = Ok (mk_parts "" "9007199254740992" "." "1" "" "")
      /\ py_int (unc_digits_of (mk_parts "" "9007199254740992" "." "1" "" ""))
         = Ok 90071992547409921
      /\ discrepancy (mk_parts "" "1" "" "" "" "")
                     (mk_parts "" "9007199254740992" "." "1" "" "") = Ok (-1)
      /\ py_str (exact_ceiling 90071992547409921 (-1))
         = "9007199254740993"%string
      /\ format_uncertain_value "1" "9007199254740992.1"
         = Ok "1(9007199254740992)"%string)
  /\ (fullmatch_groups "1+5" = Ok (mk_parts "" "1" "" "" "" "+5")
      /\ fullmatch_groups "1.5" = Ok (mk_parts "" "1" "." "5" "" "")
      /\ py_int (unc_digits_of (mk_parts "" "1" "." "5" "" "")) = Ok 15
      /\ discrepancy (mk_parts "" "1" "" "" "" "+5")
                     (mk_parts "" "1" "." "5" "" "") = Ok (-1)
      /\ py_str (exact_ceiling 15 (-1)) = "2"%string
      /\ format_uncertain_value "1+5" "1.5" = Ok "1(1)+5"%string).
Proof. vm_compute. repeat split. Qed.

End UncertainValueClaims.

(** ** The first way of matching *)

Module FirstFacts.
Import Re.

Lemma hd_flat_map {A B : Type} (f : A -> list B) (x : A) (l : list A) (y : B) :
  hd_error (f x) = Some y -> hd_error (flat_map f (x :: l)) = Some y.
Proof. simpl. destruct (f x); [discriminate | trivial]. Qed.

Lemma hd_cons {A : Type} (l : list A) (y : A) :
  hd_error l = Some y -> exists l', l = y :: l'.
Proof. destruct l; [discriminate|]. intros [= ->]. now eexists. Qed.

Lemma first_class p prev c rest g :
  p c = true ->
  hd_error (run (Class p) prev (String c rest) g) = Some (String c "", rest, g).
Proof. intros H. simpl. now rewrite H. Qed.

Lemma first_boundary prev s g :
  at_boundary prev s = true ->
  hd_error (run WordBoundary prev s g) = Some ("", s, g).
Proof. intros H. simpl. now rewrite H. Qed.

(** A sequence whose first part and, after it, second part both match
    at the first try. *)
Lemma first_seq r1 r2 prev s g t1 s1 g1 t2 s2 g2 :
  hd_error (run r1 prev s g) = Some (t1, s1, g1) ->
  hd_error (run r2 (Str.last prev t1) s1 g1) = Some (t2, s2, g2) ->
  hd_error (run (r1 >> r2) prev s g) = Some (t1 ++ t2, s2, g2).
Proof.
  intros H1 H2. simpl. apply hd_cons in H1. destruct H1 as [l1 ->].
  apply hd_flat_map. apply hd_cons in H2. destruct H2 as [l2 ->]. reflexivity.
Qed.

Lemma first_group n r prev s g t rest g' :
  hd_error (run r prev s g) = Some (t, rest, g') ->
  hd_error (run (Group n r) prev s g) = Some (t, rest, set_group n t g').
Proof. intros H. simpl. apply hd_cons in H. destruct H as [l ->]. reflexivity. Qed.

Lemma first_opt_taken r prev s g o :
  hd_error (run r prev s g) = Some o ->
  hd_error (run (Opt r) prev s g) = Some o.
Proof. intros H. simpl. apply hd_cons in H. destruct H as [l ->]. reflexivity. Qed.

Lemma first_opt_skipped r prev s g :
  run r prev s g = [] -> hd_error (run (Opt r) prev s g) = Some ("", s, g).
Proof. intros H. simpl. now rewrite H. Qed.

(** A greedy repetition first takes the whole run. *)
Lemma first_star p w rest g :
  Str.forallb p w = true -> stops p rest ->
  hd_error (run_star p (w ++ rest) g) = Some (w, rest, g).
Proof.
  intros Hw Hr. induction w as [|c w IH]; simpl.
  - destruct rest as [|c r]; simpl; [reflexivity|]. simpl in Hr. now rewrite Hr.
  - simpl in Hw. apply andb_prop in Hw. destruct Hw as [Hc Hw]. rewrite Hc.
    specialize (IH Hw). apply hd_cons in IH. destruct IH as [l ->]. reflexivity.
Qed.

Lemma first_plus p prev w rest g :
  Str.forallb p w = true -> w <> "" -> stops p rest ->
  hd_error (run (Plus p) prev (w ++ rest) g) = Some (w, rest, g).
Proof.
  intros Hw Hne Hr. destruct w as [|c w]; [congruence|]. simpl.
  simpl in Hw. apply andb_prop in Hw. destruct Hw as [Hc Hw]. rewrite Hc.
  pose proof (first_star p w rest g Hw Hr) as H.
  apply hd_cons in H. destruct H as [l ->]. reflexivity.
Qed.

Lemma run_plus_stops p prev s g : stops p s -> run (Plus p) prev s g = [].
Proof. destruct s as [|c s]; simpl; [reflexivity|]. now intros ->. Qed.

Lemma run_class_stops p prev s g : stops p s -> run (Class p) prev s g = [].
Proof. destruct s as [|c s]; simpl; [reflexivity|]. now intros ->. Qed.

Lemma run_seq_nil r1 r2 prev s g :
  run r1 prev s g = [] -> run (r1 >> r2) prev s g = [].
Proof. intros H. simpl. now rewrite H. Qed.

Lemma last_of_run p prev w :
  Str.forallb p w = true -> w <> "" ->
  exists c, Str.last prev w = Some c /\ p c = true.
Proof.
  revert prev. induction w as [|c w IH]; intros prev Hw Hne; [congruence|].
  simpl in Hw. apply andb_prop in Hw. destruct Hw as [Hc Hw]. simpl.
  destruct w as [|c' w]; [now exists c|].
  apply IH; [assumption | discriminate].
Qed.

End FirstFacts.

(** ** The decomposition number_regex finds *)

Section GreedyDecomposition.
Import Re FirstFacts.
Local Open Scope Z_scope.

Lemma first_opt_class p prev t rest g :
  optional p t -> (t = "" -> stops p rest) ->
  hd_error (run (Opt (Class p)) prev (t ++ rest) g) = Some (t, rest, g).
Proof.
  intros [->|(c & Hc & ->)] Hs.
  - apply first_opt_skipped. apply run_class_stops. now apply Hs.
  - apply first_opt_taken. now apply first_class.
Qed.

Lemma stops_run (p q : ascii -> bool) (w rest : string) :
  (forall c, q c = true -> p c = false) ->
  Str.forallb q w = true -> (w = "" -> stops p rest) -> stops p (w ++ rest).
Proof.
  intros Hpq Hw Hr. destruct w as [|c w]; [now apply Hr|].
  simpl in *. apply andb_prop in Hw. destruct Hw as [Hc _]. now apply Hpq.
Qed.

Lemma stops_optional (p q : ascii -> bool) (t rest : string) :
  (forall c, q c = true -> p c = false) ->
  optional q t -> (t = "" -> stops p rest) -> stops p (t ++ rest).
Proof.
  intros Hpq [->|(c & Hc & ->)] Hr; [now apply Hr|]. simpl. now apply Hpq.
Qed.

Lemma digit_not_point (c : ascii) : is_digit c = true -> is_char "." c = false.
Proof.
  destruct c as [[|] [|] [|] [|] [|] [|] [|] [|]]; vm_compute; congruence.
Qed.

Lemma marker_not_point (c : ascii) : is_char "e" c = true -> is_char "." c = false.
Proof.
  destruct c as [[|] [|] [|] [|] [|] [|] [|] [|]]; vm_compute; congruence.
Qed.

Lemma sign_not_point (c : ascii) : is_sign c = true -> is_char "." c = false.
Proof.
  destruct c as [[|] [|] [|] [|] [|] [|] [|] [|]]; vm_compute; congruence.
Qed.

Lemma sign_not_marker (c : ascii) : is_sign c = true -> is_char "e" c = false.
Proof.
  destruct c as [[|] [|] [|] [|] [|] [|] [|] [|]]; vm_compute; congruence.
Qed.

Lemma sign_not_digit (c : ascii) : is_sign c = true -> is_digit c = false.
Proof.
  destruct c as [[|] [|] [|] [|] [|] [|] [|] [|]]; vm_compute; congruence.
Qed.

Lemma point_not_digit (c : ascii) : is_char "." c = true -> is_digit c = false.
Proof.
  destruct c as [[|] [|] [|] [|] [|] [|] [|] [|]]; vm_compute; congruence.
Qed.

Lemma marker_not_digit (c : ascii) : is_char "e" c = true -> is_digit c = false.
Proof.
  destruct c as [[|] [|] [|] [|] [|] [|] [|] [|]]; vm_compute; congruence.
Qed.

Lemma stops_signed (p : ascii -> bool) (s : string) :
  (forall c, is_sign c = true -> p c = false) ->
  (forall c, is_digit c = true -> p c = false) ->
  signed_digit_run s -> stops p s.
Proof.
  intros Hs Hd (sg & ds & -> & Hsg & Hds).
  apply (stops_optional p is_sign); [assumption..|]. intros _.
  rewrite <- (append_nil_r ds). apply (stops_run p is_digit); [assumption..|].
  intros _. exact I.
Qed.

(** A canonical decomposition is the one [fullmatch] returns for the
    literal it spells. *)
Lemma fullmatch_groups_canonical (p : number_parts) :
  well_formed p -> canonical p -> fullmatch_groups (text_of p) = Ok p.
Proof.
  intros [W1 W2 N2 W3 W4 W5 (sg & ds & E6 & Wsg & Wds)] [C1 C2].
  destruct p as [a b c d e f]. unfold text_of. simpl in *. subst f.
  assert (H : hd_error (run number_regex None
                          (a ++ b ++ c ++ d ++ e ++ (sg ++ ds) ++ "") no_groups)
              = Some (a ++ b ++ c ++ d ++ e ++ sg ++ ds, "",
                      groups_of (mk_parts a b c d e (sg ++ ds)))).
  { unfold number_regex, groups_of. simpl p_sign; simpl p_int; simpl p_point;
      simpl p_frac; simpl p_marker; simpl p_exp.
    eapply first_seq.
    { apply first_group. apply first_opt_class; [exact W1|]. intros _.
      apply (stops_run is_sign is_digit); [apply digit_not_sign | exact W2|].
      intros ->. congruence. }
    eapply first_seq.
    { apply first_group. apply first_plus; [exact W2 | exact N2|].
      apply (stops_optional is_digit (is_char ".")); [apply point_not_digit | exact W3|].
      intros Hc. rewrite (C1 Hc). simpl.
      apply (stops_optional is_digit (is_char "e")); [apply marker_not_digit | exact W5|].
      intros He. rewrite append_nil_r. rewrite Hc, He in *. now apply C2. }
    eapply first_seq.
    { apply first_group. apply first_opt_class; [exact W3|]. intros _.
      apply (stops_run _ is_digit); [apply digit_not_point | exact W4|]. intros _.
      apply (stops_optional _ (is_char "e")); [apply marker_not_point | exact W5|].
      intros _. rewrite append_nil_r.
      apply stops_signed; [apply sign_not_point | apply digit_not_point|].
      now exists sg, ds. }
    eapply first_seq.
    { apply first_group. apply first_star; [exact W4|].
      apply (stops_optional _ (is_char "e")); [apply marker_not_digit | exact W5|].
      intros He. rewrite append_nil_r. now apply C2. }
    eapply first_seq.
    { apply first_group. apply first_opt_class; [exact W5|]. intros _.
      rewrite append_nil_r.
      apply stops_signed; [apply sign_not_marker | apply digit_not_marker|].
      now exists sg, ds. }
    apply first_group. rewrite append_assoc. eapply first_seq.
    { apply first_opt_class; [exact Wsg|]. intros _.
      apply (stops_run is_sign is_digit); [apply digit_not_sign | exact Wds|].
      intros _. exact I. }
    apply first_star; [exact Wds | exact I]. }
  rewrite append_nil_r in H. unfold fullmatch_groups, fullmatch.
  apply hd_cons in H. destruct H as [l ->]. simpl find. cbv beta iota.
  now rewrite parts_of_groups_of.
Qed.

(** Rounding that overflows: the function raises [OverflowError]. *)
Lemma rounding_overflow (value uncertainty : string)
  (val_parts unc_parts : number_parts) (n d : Z) :
  fullmatch_groups value = Ok val_parts ->
  fullmatch_groups uncertainty = Ok unc_parts ->
  py_int (unc_digits_of unc_parts) = Ok n -> n <> 0 ->
  exp_discrepancy_of val_parts unc_parts = Ok d -> d < 0 ->
  Float.of_decimal n d = Float.Infinity ->
  format_uncertain_value value uncertainty = Raise OverflowError.
Proof.
  intros Hv Hu Hn Hn0 Hd Hd0 Hinf.
  rewrite (format_uncertain_value_eq _ _ _ _ _ Hv Hu Hn).
  apply Z.eqb_neq in Hn0. rewrite Hn0, Hd. simpl bind.
  apply Z.ltb_lt in Hd0. now rewrite Hd0, Hinf.
Qed.

(** A one followed by 309 zeros, a point and a five is a well-formed
    uncertainty of the value ["1"] for which nothing is returned. *)
Lemma overflow_example :
  let uncertainty := (String "1" (Str.replicate 309 "0") ++ ".5")%string in
  decimal_literal "1" /\ decimal_literal uncertainty
  /\ format_uncertain_value "1" uncertainty = Raise OverflowError.
Proof.
  set (unc_parts := mk_parts "" (String "1" (Str.replicate 309 "0")) "." "5" "" "").
  assert (Hu : fullmatch_groups (text_of unc_parts) = Ok unc_parts).
  { apply fullmatch_groups_canonical.
    - constructor; simpl; try (now left); try reflexivity; try discriminate.
      + right. now exists "."%char.
      + exists ""%string, ""%string. repeat split. now left.
    - split; simpl; [discriminate | trivial]. }
  assert (Hv : fullmatch_groups "1" = Ok (mk_parts "" "1" "" "" "" ""))
    by (vm_compute; reflexivity).
  assert (E : text_of unc_parts
              = (String "1" (Str.replicate 309 "0") ++ ".5")%string).
  { unfold text_of, unc_parts. simpl p_sign; simpl p_int; simpl p_point;
      simpl p_frac; simpl p_marker; simpl p_exp.
    now rewrite !append_nil_r. }
  cbv zeta. rewrite <- E. split; [|split].
  - apply fullmatch_groups_iff. eauto.
  - apply fullmatch_groups_iff. eauto.
  - apply (rounding_overflow _ _ _ _ (10 ^ 310 + 5) (-1) Hv Hu);
      try (vm_compute; reflexivity). vm_compute. discriminate.
Qed.

End GreedyDecomposition.

(** ** unit_regex on well-formed unit expressions *)

Section UnitRegex.
Import Re FirstFacts.

Lemma letter_is_word (c : ascii) : is_letter c = true -> is_word c = true.
Proof.
  destruct c as [[|] [|] [|] [|] [|] [|] [|] [|]]; vm_compute; congruence.
Qed.

Lemma digit_is_word (c : ascii) : is_digit c = true -> is_word c = true.
Proof.
  destruct c as [[|] [|] [|] [|] [|] [|] [|] [|]]; vm_compute; congruence.
Qed.

Lemma digit_not_minus (c : ascii) : is_digit c = true -> is_char "-" c = false.
Proof.
  destruct c as [[|] [|] [|] [|] [|] [|] [|] [|]]; vm_compute; congruence.
Qed.

Lemma separated_stops (p : ascii -> bool) (rest : string) :
  p " "%char = false -> separated rest -> stops p rest.
Proof. intros Hp [->|[r ->]]; simpl; trivial. Qed.

Lemma separated_not_word (rest : string) :
  separated rest -> is_word_opt (Str.head rest) = false.
Proof. intros [->|[r ->]]; reflexivity. Qed.

Lemma boundary_before (prev : option ascii) (w rest : string) (p : ascii -> bool) :
  (forall c, p c = true -> is_word c = true) ->
  is_word_opt prev = false -> Str.forallb p w = true -> w <> "" ->
  at_boundary prev (w ++ rest) = true.
Proof.
  intros Hp Hprev Hw Hne. destruct w as [|c w]; [congruence|].
  simpl in Hw. apply andb_prop in Hw. destruct Hw as [Hc _].
  unfold at_boundary. simpl. now rewrite Hprev, (Hp c Hc).
Qed.

Lemma boundary_after (prev : option ascii) (w rest : string) (p : ascii -> bool) :
  (forall c, p c = true -> is_word c = true) ->
  Str.forallb p w = true -> w <> "" -> separated rest ->
  at_boundary (Str.last prev w) rest = true.
Proof.
  intros Hp Hw Hne Hr. destruct (last_of_run p prev w Hw Hne) as (c & -> & Hc).
  unfold at_boundary. simpl. now rewrite (Hp c Hc), (separated_not_word rest Hr).
Qed.

(** An entry without exponent is matched whole at the first try. *)
Lemma match_bare_token prev base rest :
  Str.forallb is_letter base = true -> base <> "" ->
  is_word_opt prev = false -> separated rest ->
  exists g, match_here unit_regex prev (base ++ rest) = Some (base, rest, g)
            /\ triple_of g = (base, "", "").
Proof.
  intros Hb Hne Hprev Hr. unfold match_here, unit_regex.
  pose proof (first_boundary prev (base ++ rest) no_groups
                (boundary_before prev base rest _ letter_is_word Hprev Hb Hne)) as B0.
  pose proof (first_group 1 _ (Str.last prev "") _ _ _ _ _
                (first_plus is_letter (Str.last prev "") base rest no_groups Hb Hne
                   (separated_stops _ _ eq_refl Hr))) as G1.
  set (g1 := set_group 1 base no_groups) in *.
  set (p1 := Str.last (Str.last prev "") base) in *.
  pose proof (first_opt_skipped
                (Class (is_char "^")
                 >> Group 2 (Opt (Class (is_char "-")))
                 >> Group 3 (Plus is_digit)) p1 rest g1
                (run_seq_nil _ _ _ _ _
                   (run_class_stops _ _ _ _ (separated_stops _ _ eq_refl Hr)))) as O.
  pose proof (first_boundary (Str.last p1 "") rest g1
                (boundary_after _ base rest _ letter_is_word Hb Hne Hr)) as B1.
  pose proof (first_seq _ _ _ _ _ _ _ _ _ _ _ B0
                (first_seq _ _ _ _ _ _ _ _ _ _ _ G1
                   (first_seq _ _ _ _ _ _ _ _ _ _ _ O B1))) as H.
  simpl append in H. rewrite append_nil_r in H.
  exists g1. split; [exact H | reflexivity].
Qed.

(** An entry with an exponent is matched whole at the first try. *)
Lemma match_power_token prev base sign exp rest :
  Str.forallb is_letter base = true -> base <> "" ->
  Str.forallb is_digit exp = true -> exp <> "" ->
  sign = "" \/ sign = "-" ->
  is_word_opt prev = false -> separated rest ->
  exists g,
    match_here unit_regex prev ((base ++ "^" ++ sign ++ exp) ++ rest)
    = Some (base ++ "^" ++ sign ++ exp, rest, g)
    /\ triple_of g = (base, sign, exp).
Proof.
  intros Hb Hne He Hnee Hs Hprev Hr. unfold match_here, unit_regex.
  rewrite append_assoc.
  pose proof (first_boundary prev (base ++ ("^" ++ sign ++ exp) ++ rest) no_groups
                (boundary_before prev base _ _ letter_is_word Hprev Hb Hne)) as B0.
  pose proof (first_group 1 _ (Str.last prev "") _ _ _ _ _
                (first_plus is_letter (Str.last prev "") base
                   (("^" ++ sign ++ exp) ++ rest) no_groups Hb Hne eq_refl)) as G1.
  set (g1 := set_group 1 base no_groups) in *.
  set (p1 := Str.last (Str.last prev "") base) in *.
  pose proof (first_class (is_char "^") p1 "^" ((sign ++ exp) ++ rest) g1 eq_refl) as C.
  set (p2 := Str.last p1 "^") in *.
  assert (G2 : hd_error (run (Group 2 (Opt (Class (is_char "-"))))
                         p2 ((sign ++ exp) ++ rest) g1)
               = Some (sign, exp ++ rest, set_group 2 sign g1)).
  { apply first_group. destruct Hs as [->| ->].
    - apply first_opt_skipped. apply run_class_stops.
      destruct exp as [|c e]; [congruence|]. simpl in *.
      apply andb_prop in He. destruct He as [Hc _]. now apply digit_not_minus.
    - apply first_opt_taken. now apply first_class. }
  set (g2 := set_group 2 sign g1) in *.
  pose proof (first_group 3 _ (Str.last p2 sign) _ _ _ _ _
                (first_plus is_digit (Str.last p2 sign) exp rest g2 He Hnee
                   (separated_stops _ _ eq_refl Hr))) as G3.
  set (g3 := set_group 3 exp g2) in *.
  pose proof (first_opt_taken _ _ _ _ _
                (first_seq _ _ _ _ _ _ _ _ _ _ _ C
                   (first_seq _ _ _ _ _ _ _ _ _ _ _ G2 G3))) as O.
  assert (B1 : hd_error (run WordBoundary
                           (Str.last p1 ("^" ++ sign ++ exp)) rest g3)
               = Some ("", rest, g3)).
  { apply first_boundary. rewrite !last_append.
    now apply (boundary_after _ exp rest _ digit_is_word). }
  pose proof (first_seq _ _ _ _ _ _ _ _ _ _ _ B0
                (first_seq _ _ _ _ _ _ _ _ _ _ _ G1
                   (first_seq _ _ _ _ _ _ _ _ _ _ _ O B1))) as H.
  simpl append in H. rewrite append_nil_r in H.
  exists g3. split; [exact H | reflexivity].
Qed.

Lemma token_text_nonempty (t : unit_token) :
  well_formed_token t -> exists c w, token_text t = String c w.
Proof.
  destruct t as [[base sign] exp]. intros (_ & Hne & _ & _). simpl.
  destruct base as [|c b]; [congruence|].
  destruct (Str.truthy exp); simpl; eauto.
Qed.

(** Every well-formed entry is matched whole at the first try, with
    itself as the triple of groups. *)
Lemma match_token prev (t : unit_token) rest :
  well_formed_token t -> is_word_opt prev = false -> separated rest ->
  exists g, match_here unit_regex prev (token_text t ++ rest)
            = Some (token_text t, rest, g)
            /\ triple_of g = t.
Proof.
  destruct t as [[base sign] exp]. intros (Hb & Hne & He & Hs) Hprev Hr.
  simpl token_text. destruct (Str.truthy exp) eqn:T.
  - apply truthy_true in T.
    apply match_power_token; try assumption. intuition.
  - apply truthy_false in T. subst exp.
    assert (sign = "") as -> by (destruct Hs as [|[_ ?]]; congruence).
    now apply match_bare_token.
Qed.

(** No match starts where there is no letter. *)
Lemma match_here_stops prev s :
  stops is_letter s -> match_here unit_regex prev s = None.
Proof.
  intros H. unfold match_here, unit_regex. simpl.
  destruct (at_boundary prev s); simpl; [|reflexivity].
  pose proof (run_plus_stops is_letter (Str.last prev "") s no_groups H) as E.
  simpl in E. now rewrite E.
Qed.

Lemma scan_matched fuel r prev s c t rest g :
  match_here r prev s = Some (String c t, rest, g) ->
  scan (S fuel) r prev s = g :: scan fuel r (Str.last prev (String c t)) rest.
Proof. intros H. simpl. now rewrite H. Qed.

Lemma scan_unmatched fuel r prev c s :
  match_here r prev (String c s) = None ->
  scan (S fuel) r prev (String c s) = scan fuel r (Some c) s.
Proof. intros H. simpl. now rewrite H. Qed.

Lemma scan_end fuel r prev :
  match_here r prev "" = None -> scan (S fuel) r prev "" = [].
Proof. intros H. simpl. now rewrite H. Qed.

Lemma match_here_split r prev s t rest g :
  match_here r prev s = Some (t, rest, g) -> s = t ++ rest.
Proof.
  unfold match_here. intros H. apply hd_cons in H. destruct H as [l H].
  apply (ReFacts.run_split r prev s no_groups t rest g). rewrite H. now left.
Qed.

(** A match of [unit_regex] is never empty, so the scan always resumes
    where the match ended. *)
Lemma match_here_unit_nonempty prev s t rest g :
  match_here unit_regex prev s = Some (t, rest, g) -> t <> "".
Proof.
  unfold match_here. intros H. apply hd_cons in H. destruct H as [l H].
  assert (D : den unit_regex prev s no_groups (t, rest, g)).
  { apply ReFacts.run_den. rewrite H. now left. }
  unfold unit_regex in D.
  destruct D as (t1 & s1 & g1 & t2 & s2 & g2 & [_ [= -> -> ->]] & K & [= -> -> ->]).
  destruct K as (t3 & s3 & g3 & t4 & s4 & g4 & G & _ & [= -> -> ->]).
  apply ReFacts.den_group_plus in G. destruct G as (_ & Hne & _).
  destruct t3; [congruence | discriminate].
Qed.

(** The scan never runs out of positions: any bound above the length of
    the subject gives the same matches. *)
Lemma scan_fuel r (f1 : nat) :
  forall f2 prev s,
    (String.length s < f1)%nat -> (String.length s < f2)%nat ->
    scan f1 r prev s = scan f2 r prev s.
Proof.
  induction f1 as [|f1 IH]; intros f2 prev s H1 H2; [lia|].
  destruct f2 as [|f2]; [lia|]. simpl.
  destruct (match_here r prev s) as [[[t rest] g]|] eqn:M.
  - destruct t as [|c t].
    + destruct s as [|c s]; [reflexivity|]. simpl in H1, H2.
      f_equal. apply IH; lia.
    + apply match_here_split in M. subst s. simpl in H1, H2.
      rewrite length_append in H1, H2. f_equal. apply IH; lia.
  - destruct s as [|c s]; [reflexivity|]. simpl in H1, H2. apply IH; lia.
Qed.

(** Scanning a well-formed expression finds its entries, in order. *)
Lemma scan_tokens (tokens : list unit_token) :
  Forall well_formed_token tokens ->
  forall fuel prev,
    is_word_opt prev = false ->
    (String.length (unit_text tokens) < fuel)%nat ->
    map triple_of (scan fuel unit_regex prev (unit_text tokens)) = tokens.
Proof.
  induction 1 as [|t l Ht Hl IH]; intros fuel prev Hprev Hf.
  - destruct fuel as [|fuel]; [simpl in Hf; lia|].
    simpl unit_text. now rewrite scan_end by (now apply match_here_stops).
  - destruct fuel as [|fuel]; [lia|].
    destruct (token_text_nonempty t Ht) as (c & w & Ew).
    destruct l as [|t' l'].
    + simpl unit_text in *.
      destruct (match_token prev t "" Ht Hprev (or_introl eq_refl)) as (g & M & G).
      rewrite append_nil_r in M. rewrite Ew in M, Hf |- *.
      rewrite (scan_matched _ _ _ _ _ _ _ _ M). simpl in Hf.
      destruct fuel as [|fuel]; [lia|].
      rewrite scan_end by (now apply match_here_stops).
      simpl. now rewrite G.
    + change (unit_text (t :: t' :: l'))
        with (token_text t ++ String " " (unit_text (t' :: l'))) in *.
      set (more := unit_text (t' :: l')) in *.
      destruct (match_token prev t (String " " more) Ht Hprev
                  (or_intror (ex_intro _ more eq_refl))) as (g & M & G).
      rewrite Ew in M, Hf |- *.
      rewrite (scan_matched _ _ _ _ _ _ _ _ M).
      simpl in Hf. rewrite length_append in Hf. simpl in Hf.
      destruct fuel as [|fuel]; [lia|].
      rewrite scan_unmatched by (now apply match_here_stops).
      simpl map. rewrite G. apply (f_equal (cons t)).
      apply IH; [reflexivity | lia].
Qed.

(** [findall] on a well-formed expression returns its entries. *)
Lemma findall3_tokens (tokens : list unit_token) :
  Forall well_formed_token tokens ->
  findall3 unit_regex (unit_text tokens) = tokens.
Proof.
  intros H. unfold findall3, finditer. apply scan_tokens; [assumption | reflexivity | lia].
Qed.

End UnitRegex.

(** ** format_unit, entry by entry *)

Section UnitFormat.

Lemma add_markers_eq (unit sign exp : string) :
  add_markers unit sign exp = unit ++ reciprocal_marker sign ++ power_marker exp.
Proof.
  unfold add_markers, reciprocal_marker, power_marker.
  destruct (Str.truthy sign), (String.eqb exp "1"), (String.eqb exp "2"),
    (String.eqb exp "3"), (Str.truthy exp);
    simpl append; rewrite ?append_nil_r, ?append_assoc; reflexivity.
Qed.

(** The loop appends to [unit] the markup of the entries, one by one. *)
Lemma format_tokens_eq (tokens : list unit_token) :
  forall unit,
    format_tokens tokens unit = (r <- render_all tokens ;; Ok (unit ++ r)).
Proof.
  induction tokens as [|[[base sign] exp] l IH]; intros unit;
    cbn [format_tokens render_all render_token].
  - cbn [bind]. now rewrite append_nil_r.
  - destruct (getitem unit_map base) as [markup|e]; cbn [bind]; [|reflexivity].
    rewrite IH, add_markers_eq.
    destruct (render_all l) as [ms|e]; cbn [bind]; [|reflexivity].
    now rewrite !append_assoc.
Qed.

Lemma format_unit_eq (s : string) :
  format_unit s = render_all (findall3 unit_regex s).
Proof.
  unfold format_unit. rewrite format_tokens_eq.
  destruct (render_all _); reflexivity.
Qed.

Lemma getitem_error (d : list (string * string)) (key : string) (e : exn) :
  getitem d key = Raise e -> e = KeyError key.
Proof.
  induction d as [|[k v] d IH]; simpl; [now intros [= <-]|].
  destruct (String.eqb k key); [discriminate | assumption].
Qed.


Lemma not_in_table (base : string) :
  ~ in_table base <-> getitem unit_map base = Raise (KeyError base).
Proof.
  unfold in_table. destruct (getitem unit_map base) as [m|e] eqn:G.
  - split; [intros H; exfalso; eauto | discriminate].
  - apply getitem_error in G. subst e. split; [reflexivity|].
    intros _ [m H]. discriminate.
Qed.


Lemma render_all_first_unknown (pre post : list unit_token) (t : unit_token) :
  (forall t', In t' pre -> in_table (token_base t')) ->
  ~ in_table (token_base t) ->
  render_all (pre ++ t :: post) = Raise (KeyError (token_base t)).
Proof.
  intros Hpre Ht. induction pre as [|[[b sg] ex] pre IH];
    cbn [app render_all render_token].
  - destruct t as [[base sign] exp]. unfold token_base in *. cbn [fst] in *.
    apply not_in_table in Ht. cbn [render_token]. now rewrite Ht.
  - destruct (Hpre (b, sg, ex) (or_introl eq_refl)) as [m Hm].
    unfold token_base in Hm. cbn [fst] in Hm.
    rewrite Hm. cbn [bind]. rewrite IH; [reflexivity|].
    intros t' Hin. apply Hpre. now right.
Qed.

(** A list with an entry outside the table has a first such entry. *)
Lemma first_unknown (l : list unit_token) :
  (exists t, In t l /\ ~ in_table (token_base t)) ->
  exists pre t post,
    l = (pre ++ t :: post)%list
    /\ (forall t', In t' pre -> in_table (token_base t'))
    /\ ~ in_table (token_base t).
Proof.
  induction l as [|a l IH]; intros (t & Hin & Ht); [destruct Hin|].
  destruct (getitem unit_map (token_base a)) as [m|e] eqn:G.
  - destruct Hin as [->|Hin]; [exfalso; apply Ht; now exists m|].
    destruct (IH (ex_intro _ t (conj Hin Ht))) as (pre & u & post & -> & Hp & Hu).
    exists (a :: pre), u, post. repeat split; [|assumption].
    intros t' [<-|H']; [now exists m | now apply Hp].
  - exists [], a, l. repeat split; [intros t' []|].
    intros [m Hm]. congruence.
Qed.

Lemma render_all_cases (l : list unit_token) :
  (exists out, render_all l = Ok out)
  \/ (exists t, In t l /\ ~ in_table (token_base t)
                /\ render_all l = Raise (KeyError (token_base t))).
Proof.
  induction l as [|[[base sign] exp] l IH]; cbn [render_all render_token];
    [left; now eexists|].
  destruct (getitem unit_map base) as [m|e] eqn:G; cbn [bind].
  - destruct IH as [[out ->]|(t & Hin & Ht & ->)]; cbn [bind].
    + left. now eexists.
    + right. exists t. repeat split; [now right | assumption].
  - right. exists (base, sign, exp). pose proof (getitem_error _ _ _ G). subst e.
    repeat split; [now left|]. now apply not_in_table.
Qed.

(** Text without letters holds no entry. *)
Lemma scan_no_letters (s : string) :
  Str.forallb (fun c => negb (is_letter c)) s = true ->
  forall fuel prev, Re.scan fuel unit_regex prev s = [].
Proof.
  induction s as [|c s IH]; intros H fuel prev; destruct fuel as [|fuel];
    try reflexivity.
  - now rewrite scan_end by (now apply match_here_stops).
  - simpl in H. apply andb_prop in H. destruct H as [Hc Hs].
    apply negb_true_iff in Hc.
    rewrite scan_unmatched by (now apply match_here_stops). now apply IH.
Qed.

End UnitFormat.

(** ** What format_unit returns *)

Section UnitClaims.



(** The markup of a well-formed expression: that of its entries, in
    order. *)
Lemma format_unit_expression (tokens : list unit_token) :
  Forall well_formed_token tokens ->
  format_unit (unit_text tokens) = render_all tokens.
Proof. intros W. now rewrite format_unit_eq, findall3_tokens. Qed.





(** C7.  When the entries [findall] reports for a unit expression
    include one whose base symbol is not in the table, [format_unit]
    raises the [KeyError] that names the first such symbol, whatever
    follows it; on a well-formed expression the entries reported are
    the entries written; and [format_unit("xyz")] raises
    [KeyError("xyz")]. *)
Theorem C7_unknown_symbol :
  (forall unit_input,
      (exists t, In t (findall3 unit_regex unit_input)
                 /\ ~ in_table (token_base t)) ->
      exists pre t post,
        findall3 unit_regex unit_input = (pre ++ t :: post)%list
        /\ (forall t', In t' pre -> in_table (token_base t'))
        /\ ~ in_table (token_base t)
        /\ format_unit unit_input = Raise (KeyError (token_base t)))
  /\ (forall tokens,
         Forall well_formed_token tokens ->
         findall3 unit_regex (unit_text tokens) = tokens)
  /\ format_unit "xyz" = Raise (KeyError "xyz").
Proof.
  split; [|split; [apply findall3_tokens | vm_compute; reflexivity]].
  intros s H. destruct (first_unknown _ H) as (pre & t & post & E & Hp & Ht).
  exists pre, t, post. repeat (split; [assumption|]).
  rewrite format_unit_eq, E. now apply render_all_first_unknown.
Qed.

Lemma C7_unknown_symbol_witness :
  exists pre t post,
    findall3 unit_regex "kg foo^-2 m bar" = (pre ++ t :: post)%list
    /\ (forall t', In t' pre -> in_table (token_base t'))
    /\ ~ in_table (token_base t)
    /\ format_unit "kg foo^-2 m bar" = Raise (KeyError (token_base t)).
Proof.
  apply (proj1 C7_unknown_symbol "kg foo^-2 m bar").
  exists ("foo", "-", "2"). split.
  - vm_compute. right. left. reflexivity.
  - apply not_in_table. vm_compute. reflexivity.
Defined.

(** C10.  [format_unit] never fails on a malformed expression: it
    returns a string, unless an entry [findall] reports has a base
    symbol missing from the table, the only error there is; text that
    forms no entry is skipped, so that input without letters, the empty
    string among it, gives the empty string. *)
Theorem C10_malformed_text_skipped :
  (forall unit_input,
      (exists out, format_unit unit_input = Ok out)
      \/ (exists t, In t (findall3 unit_regex unit_input)
                    /\ ~ in_table (token_base t)
                    /\ format_unit unit_input
                       = Raise (KeyError (token_base t))))
  /\ (forall unit_input,
         Str.forallb (fun c => negb (is_letter c)) unit_input = true ->
         format_unit unit_input = Ok "")
  /\ format_unit "" = Ok ""
  /\ format_unit "m2" = Ok ""
  /\ format_unit "3 kg/m^2!" = Ok "\kilogram\square\metre"
  /\ format_unit "m^-" = Ok "\metre".
Proof.
  split; [|split; [|vm_compute; repeat split]].
  - intros s. rewrite format_unit_eq. apply render_all_cases.
  - intros s H. rewrite format_unit_eq. unfold findall3, Re.finditer.
    now rewrite scan_no_letters.
Qed.

Lemma C10_malformed_text_skipped_witness :
  format_unit "1/2 ^-3 ??" = Ok "".
Proof.
  apply (proj1 (proj2 C10_malformed_text_skipped) "1/2 ^-3 ??").
  vm_compute. reflexivity.
Defined.

End UnitClaims.

(** * Further properties of the code *)

(** ** The decomposition of a literal *)

Section Decomposition.
Import Re.
Local Open Scope Z_scope.

Lemma digit_run_append (s t : string) :
  digit_run s -> digit_run t -> digit_run (s ++ t).
Proof. unfold digit_run. intros Hs Ht. now rewrite forallb_append, Hs, Ht. Qed.

Lemma append_nonempty (s t : string) : s <> "" -> (s ++ t)%string <> "".
Proof. destruct s; [congruence | discriminate]. Qed.

Lemma signed_digit_run_nil : signed_digit_run "".
Proof. exists ""%string, ""%string. repeat split. now left. Qed.

Lemma optional_nil (c : ascii -> bool) : optional c "".
Proof. now left. Qed.

Local Ltac solve_well_formed sg ds :=
  constructor; simpl; auto;
  first [ reflexivity
        | now exists sg, ds
        | apply signed_digit_run_nil
        | repeat apply digit_run_append; assumption
        | now apply append_nonempty ].

(** Every literal has a canonical decomposition. *)
Lemma canonical_exists (p : number_parts) :
  well_formed p ->
  exists p', well_formed p' /\ canonical p' /\ text_of p' = text_of p.
Proof.
  intros [W1 W2 N2 W3 W4 W5 (sg & ds & E6 & Wsg & Wds)].
  destruct p as [a b c d e f]. unfold text_of. simpl in *. subst f.
  assert (Key : (e <> "" \/ sg <> "") \/ (e = "" /\ sg = "")).
  { destruct e; [|left; left; discriminate].
    destruct sg; [right; now split | left; right; discriminate]. }
  destruct Key as [K|[-> ->]].
  - assert (C2 : e = "" -> stops is_digit (sg ++ ds)).
    { intros He. destruct K as [K|K]; [congruence|].
      destruct Wsg as [->|(x & Hx & ->)]; [congruence|]. simpl.
      destruct x as [[|] [|] [|] [|] [|] [|] [|] [|]]; vm_compute in Hx;
        try discriminate; reflexivity. }
    destruct c as [|x c'].
    + exists (mk_parts a (b ++ d) "" "" e (sg ++ ds)). split; [|split].
      * solve_well_formed sg ds.
      * split; simpl; auto.
      * unfold text_of. simpl. now rewrite ?append_assoc.
    + exists (mk_parts a b (String x c') d e (sg ++ ds)). split; [|split].
      * solve_well_formed sg ds.
      * split; simpl; [discriminate | auto].
      * reflexivity.
  - simpl append. destruct c as [|x c'].
    + exists (mk_parts a (b ++ d ++ ds) "" "" "" ""). split; [|split].
      * solve_well_formed sg ds.
      * split; simpl; auto.
      * unfold text_of. simpl. now rewrite ?append_nil_r, ?append_assoc.
    + exists (mk_parts a b (String x c') (d ++ ds) "" ""). split; [|split].
      * solve_well_formed sg ds.
      * split; simpl; [discriminate | auto].
      * unfold text_of. simpl. now rewrite ?append_nil_r, ?append_assoc.
Qed.

(** What [fullmatch] returns is canonical. *)
Lemma fullmatch_groups_returns_canonical (s : string) (p : number_parts) :
  fullmatch_groups s = Ok p -> well_formed p /\ canonical p /\ text_of p = s.
Proof.
  intros H. destruct (fullmatch_groups_sound _ _ H) as [W E].
  destruct (canonical_exists p W) as (p' & W' & C' & E').
  pose proof (fullmatch_groups_canonical p' W' C') as H'.
  rewrite E', <- E, H in H'. injection H' as ->. auto.
Qed.

(** X1.  [number_regex.fullmatch(s).groups()] and the text a decomposition
    spells are inverse to each other between the literals of the grammar
    and the canonical decompositions: the groups returned for [s]
    concatenate to [s], follow the grammar and are canonical (a fractional
    run only after a point, exponent digits only after a marker or a
    sign), and the groups returned for the text of a canonical
    decomposition are that decomposition. *)
Theorem fullmatch_groups_inverse :
  (forall s p,
      fullmatch_groups s = Ok p ->
      well_formed p /\ canonical p /\ text_of p = s)
  /\ (forall p,
         well_formed p -> canonical p -> fullmatch_groups (text_of p) = Ok p).
Proof.
  split; [apply fullmatch_groups_returns_canonical | apply fullmatch_groups_canonical].
Qed.

Lemma fullmatch_groups_inverse_witness :
  (well_formed (mk_parts "-" "12" "." "50" "e" "+3")
   /\ canonical (mk_parts "-" "12" "." "50" "e" "+3")
   /\ text_of (mk_parts "-" "12" "." "50" "e" "+3") = "-12.50e+3"%string)
  /\ fullmatch_groups (text_of (mk_parts "" "12" "" "" "" "+3"))
     = Ok (mk_parts "" "12" "" "" "" "+3").
Proof.
  split.
  - apply (proj1 fullmatch_groups_inverse "-12.50e+3"). vm_compute. reflexivity.
  - apply (proj2 fullmatch_groups_inverse (mk_parts "" "12" "" "" "" "+3")).
    + constructor; simpl; try reflexivity; try (now left); try discriminate.
      exists "+"%string, "3"%string. repeat split. right. now exists "+"%char.
    + split; simpl; [reflexivity | intros _; reflexivity].
Defined.

(** X2.  The sign of the uncertainty is ignored: putting a sign in front
    of an unsigned uncertainty changes nothing in what
    [format_uncertain_value] returns or raises. *)
Theorem uncertainty_sign_ignored
  (value uncertainty : string) (unc_parts : number_parts) (c : ascii) :
  is_sign c = true ->
  fullmatch_groups uncertainty = Ok unc_parts -> p_sign unc_parts = "" ->
  format_uncertain_value value (String c uncertainty)
  = format_uncertain_value value uncertainty.
Proof.
  intros Hc Hu Hs.
  destruct (fullmatch_groups_returns_canonical _ _ Hu) as (W & C & E).
  destruct unc_parts as [a b c0 d e f]. simpl in Hs. subst a.
  set (pu := mk_parts "" b c0 d e f) in *.
  set (pu' := mk_parts (String c "") b c0 d e f).
  assert (Hu' : fullmatch_groups (String c uncertainty) = Ok pu').
  { replace (String c uncertainty) with (text_of pu')
      by (rewrite <- E; reflexivity).
    apply fullmatch_groups_canonical.
    - destruct W as [W1 W2 N2 W3 W4 W5 W6]. constructor; simpl in *; auto.
      right. now exists c.
    - exact C. }
  destruct (fullmatch_groups value) as [pv|e0] eqn:Hv.
  - destruct (unc_digits_run _ W) as [Hr Hne].
    destruct (py_int_digit_run _ Hr Hne) as (n & Hn & _).
    rewrite (format_uncertain_value_eq _ _ pv pu' n Hv Hu' Hn).
    now rewrite (format_uncertain_value_eq _ _ pv pu n Hv Hu Hn).
  - unfold format_uncertain_value. now rewrite Hv.
Qed.

Lemma uncertainty_sign_ignored_witness :
  format_uncertain_value "9.81" (String "-" "0.02")
  = format_uncertain_value "9.81" "0.02".
Proof.
  apply (uncertainty_sign_ignored "9.81" "0.02" (mk_parts "" "0" "." "02" "" ""));
    vm_compute; reflexivity.
Defined.

(** X3.  The exceptions of [format_uncertain_value] once both arguments
    are decomposed.  It raises [ValueError] exactly when the uncertainty's
    digits are not all zero and the exponent group of the value or of the
    uncertainty is a bare sign.  It raises [OverflowError] only when the
    uncertainty's digits read as an integer of at least [2^1024], or the
    number of zeros to append, [exp_discrepancy] as the function computes
    it, is at least [2^63].  And when that number, if it is computed at
    all, is at most [pad_limit], the function raises nothing else. *)
Theorem format_uncertain_value_exceptions
  (value uncertainty : string) (val_parts unc_parts : number_parts) (n : Z) :
  fullmatch_groups value = Ok val_parts ->
  fullmatch_groups uncertainty = Ok unc_parts ->
  py_int (unc_digits_of unc_parts) = Ok n ->
  (format_uncertain_value value uncertainty = Raise ValueError
   <-> n <> 0
       /\ ((p_exp val_parts = "+" \/ p_exp val_parts = "-")
           \/ (p_exp unc_parts = "+" \/ p_exp unc_parts = "-")))
  /\ (format_uncertain_value value uncertainty = Raise OverflowError ->
      2 ^ 1024 <= n
      \/ exists d, exp_discrepancy_of val_parts unc_parts = Ok d /\ 2 ^ 63 <= d)
  /\ ((forall d, exp_discrepancy_of val_parts unc_parts = Ok d ->
                 d <= pad_limit) ->
      forall e,
        format_uncertain_value value uncertainty = Raise e ->
        e = ValueError \/ e = OverflowError).
Proof.
  intros Hv Hu Hn.
  destruct (fullmatch_groups_sound _ _ Hv) as [Wv _].
  destruct (fullmatch_groups_sound _ _ Hu) as [Wu _].
  rewrite (format_uncertain_value_eq _ _ _ _ _ Hv Hu Hn).
  assert (Bare : forall p, p_exp p = "+"%string \/ p_exp p = "-"%string ->
                           exponent_value (p_exp p) = Raise ValueError).
  { intros p [-> | ->]; reflexivity. }
  assert (Dec : forall p, exponent_readable p
                          \/ (p_exp p = "+"%string \/ p_exp p = "-"%string)).
  { intros p. unfold exponent_readable.
    destruct (string_dec (p_exp p) "+") as [E|E]; [right; now left|].
    destruct (string_dec (p_exp p) "-") as [E'|E']; [right; now right|].
    left. now split. }
  destruct (n =? 0) eqn:Z0.
  { apply Z.eqb_eq in Z0. repeat split; try discriminate.
    - intros [H _]. contradiction. }
  apply Z.eqb_neq in Z0.
  destruct (Dec val_parts) as [Rv|Bv], (Dec unc_parts) as [Ru|Bu].
  - destruct (exp_discrepancy_defined _ _ Wv Wu Rv Ru) as [d D].
    rewrite D. simpl bind.
    assert (NB : ~ ((p_exp val_parts = "+"%string \/ p_exp val_parts = "-"%string)
                    \/ (p_exp unc_parts = "+"%string \/ p_exp unc_parts = "-"%string))).
    { destruct Rv, Ru. intuition. }
    destruct (d <? 0) eqn:Hd.
    + apply Z.ltb_lt in Hd.
      destruct (Float.ceil (Float.of_decimal n d)) as [c|e] eqn:C; simpl bind.
      * repeat split; try discriminate. intros [_ B]. contradiction.
      * assert (e = OverflowError) as ->.
        { destruct (Float.of_decimal n d); simpl in C; [discriminate|].
          now injection C. }
        split; [split; [discriminate | intros [_ B]; contradiction]|].
        split.
        -- intros _. left.
           destruct (Z.lt_ge_cases n (2 ^ 1024)) as [L|G]; [|assumption].
           destruct (ceil_of_decimal_defined n d L Hd) as [c C']. congruence.
        -- intros _ e [= <-]. now right.
    + unfold Str.repeat_char. destruct (2 ^ 63 <=? d) eqn:Hl; simpl bind.
      * apply Z.leb_le in Hl.
        split; [split; [discriminate | intros [_ B]; contradiction]|].
        split.
        -- intros _. right. now exists d.
        -- intros _ e [= <-]. now right.
      * repeat split; try discriminate. intros [_ B]. contradiction.
  - rewrite exp_discrepancy_eq.
    destruct (exponent_value_readable _ Wv Rv) as [a ->].
    rewrite (Bare _ Bu). simpl bind.
    split; [split; [auto | reflexivity]|].
    split; [discriminate | intros _ e [= <-]; now left].
  - rewrite exp_discrepancy_eq, (Bare _ Bv). simpl bind.
    split; [split; [auto | reflexivity]|].
    split; [discriminate | intros _ e [= <-]; now left].
  - rewrite exp_discrepancy_eq, (Bare _ Bv). simpl bind.
    split; [split; [auto | reflexivity]|].
    split; [discriminate | intros _ e [= <-]; now left].
Qed.

Lemma format_uncertain_value_exceptions_witness :
  (format_uncertain_value "1e-" "0.5" = Raise ValueError
   <-> 5 <> 0
       /\ (("-" = "+" \/ "-" = "-")%string \/ ("" = "+" \/ "" = "-")%string))
  /\ (format_uncertain_value "1e-" "0.5" = Raise OverflowError ->
      2 ^ 1024 <= 5
      \/ exists d,
           exp_discrepancy_of (mk_parts "" "1" "" "" "e" "-")
                              (mk_parts "" "0" "." "5" "" "") = Ok d
           /\ 2 ^ 63 <= d)
  /\ ((forall d,
          exp_discrepancy_of (mk_parts "" "1" "" "" "e" "-")
                             (mk_parts "" "0" "." "5" "" "") = Ok d ->
          d <= pad_limit) ->
      forall e,
        format_uncertain_value "1e-" "0.5" = Raise e ->
        e = ValueError \/ e = OverflowError).
Proof.
  apply (format_uncertain_value_exceptions "1e-" "0.5"
           (mk_parts "" "1" "" "" "e" "-") (mk_parts "" "0" "." "5" "" "") 5);
    vm_compute; reflexivity.
Defined.

End Decomposition.

(** ** The displayed uncertainty as a number *)

Section DisplayedValue.
Local Open Scope Z_scope.

Lemma uint_of_string_zeros (k : nat) :
  NilEmpty.uint_of_string (Str.replicate k "0")
  = Some (Nat.iter k Decimal.D0 Decimal.Nil).
Proof. induction k as [|k IH]; simpl; [reflexivity | now rewrite IH]. Qed.

Lemma uint_of_string_padded (s : string) (k : nat) :
  forall d,
    NilEmpty.uint_of_string s = Some d ->
    NilEmpty.uint_of_string (s ++ Str.replicate k "0")
    = Some (Decimal.app d (Nat.iter k Decimal.D0 Decimal.Nil)).
Proof.
  induction s as [|c s IH]; intros d; simpl.
  - intros [= <-]. rewrite DecimalFacts.app_nil_l. apply uint_of_string_zeros.
  - destruct (NilEmpty.uint_of_string s) as [d'|]; [|discriminate].
    intros H. rewrite (IH d' eq_refl).
    apply uint_of_char_spec in H.
    assert (A : forall (f : Decimal.uint -> Decimal.uint) x y,
               DecimalFacts.to_list (f (Decimal.app x y))
               = DecimalFacts.to_list (Decimal.app (f x) y) ->
               f (Decimal.app x y) = Decimal.app (f x) y).
    { intros f x y E. now apply DecimalFacts.to_list_inj. }
    intuition subst; simpl; f_equal; apply A;
      rewrite ?DecimalFacts.app_spec; simpl;
      rewrite ?DecimalFacts.app_spec; reflexivity.
Qed.

Lemma py_int_digits (s : string) (d : Decimal.uint) :
  digit_run s -> s <> "" -> NilEmpty.uint_of_string s = Some d ->
  py_int s = Ok (Z.of_uint d).
Proof.
  intros H Hne Hd. destruct s as [|c s]; [congruence|].
  assert (Hc : is_sign c = false).
  { apply digit_not_sign. unfold digit_run in H. simpl in H.
    now apply andb_prop in H. }
  unfold py_int, NilZero.uint_of_string.
  destruct c as [[|] [|] [|] [|] [|] [|] [|] [|]];
    try (vm_compute in Hc; discriminate); now rewrite Hd.
Qed.

Lemma iter_mul10 (k : nat) (x : Z) :
  Nat.iter k (Z.mul 10) x = x * 10 ^ Z.of_nat k.
Proof.
  induction k as [|k IH]; [simpl; lia|].
  rewrite Nat2Z.inj_succ, Z.pow_succ_r by lia.
  change (Nat.iter (S k) (Z.mul 10) x) with (10 * Nat.iter k (Z.mul 10) x).
  rewrite IH. ring.
Qed.

(** Appended zeros multiply what [int] reads by a power of ten. *)
Lemma py_int_padded (s : string) (n : Z) (k : nat) :
  digit_run s -> s <> "" -> py_int s = Ok n ->
  py_int (s ++ Str.replicate k "0") = Ok (n * 10 ^ Z.of_nat k).
Proof.
  intros H Hne Hn. destruct (uint_of_digit_run _ H) as [d Hd].
  rewrite (py_int_digits s d H Hne Hd) in Hn. injection Hn as <-.
  rewrite (py_int_digits _ _ (digit_run_append _ _ H (forallb_replicate _ k "0" eq_refl))
             (append_nonempty _ _ Hne) (uint_of_string_padded s k d Hd)).
  now rewrite DecimalZ.of_uint_iter_D0, iter_mul10.
Qed.

(** X4.  The displayed uncertainty never understates.  For a non-zero
    uncertainty whose digits read as [n], a value and an uncertainty in
    each of which the exponent marker and the exponent group come
    together or not at all, and a discrepancy [d] of at most [pad_limit]:
    when [d >= 0] the displayed digits read as exactly [n * 10^d]; when
    [d < 0], [n < 2^53] and [d >= -307], they read as the integer [c]
    with [(c - 1) * 10^-d < n <= c * 10^-d].  In both cases they read as
    at least 1. *)
Theorem displayed_uncertainty_covers
  (value uncertainty : string) (val_parts unc_parts : number_parts) (n d : Z) :
  fullmatch_groups value = Ok val_parts ->
  fullmatch_groups uncertainty = Ok unc_parts ->
  paired val_parts -> paired unc_parts ->
  py_int (unc_digits_of unc_parts) = Ok n -> n <> 0 ->
  discrepancy val_parts unc_parts = Ok d -> d <= pad_limit ->
  (d < 0 -> n < 2 ^ 53 /\ -307 <= d) ->
  exists digits c,
    format_uncertain_value value uncertainty
    = Ok (p_sign val_parts ++ p_int val_parts ++ p_point val_parts
          ++ p_frac val_parts ++ "(" ++ digits ++ ")"
          ++ p_marker val_parts ++ p_exp val_parts)%string
    /\ py_int digits = Ok c /\ 1 <= c
    /\ (0 <= d -> c = n * 10 ^ d)
    /\ (d < 0 -> (c - 1) * 10 ^ (- d) < n <= c * 10 ^ (- d)).
Proof.
  intros Hv Hu Pv Pu Hn Hn0 Hd Hl Hb.
  rewrite (discrepancy_paired _ _ Pv Pu) in Hd.
  destruct (fullmatch_groups_sound _ _ Hu) as [Wu _].
  destruct (unc_digits_run _ Wu) as [Hr Hne].
  destruct (py_int_digit_run _ Hr Hne) as (n' & Hn' & Hpos).
  assert (n' = n) by congruence. subst n'.
  rewrite (format_uncertain_value_eq _ _ _ _ _ Hv Hu Hn).
  apply Z.eqb_neq in Hn0. rewrite Hn0, Hd. simpl bind.
  apply Z.eqb_neq in Hn0.
  destruct (d <? 0) eqn:Hd0.
  - apply Z.ltb_lt in Hd0. destruct (Hb Hd0) as [B1 B2].
    rewrite ceil_of_decimal_exact by lia. simpl bind.
    pose proof (exact_ceiling_spec n d Hd0) as [S1 S2].
    assert (P : 0 < 10 ^ (- d)) by (apply pow10_pos; lia).
    exists (py_str (exact_ceiling n d)), (exact_ceiling n d).
    split; [reflexivity|]. split; [apply py_int_py_str|].
    split; [nia|]. split; [lia | intros _; lia].
  - apply Z.ltb_ge in Hd0.
    rewrite (repeat_char_ok _ d (pad_limit_fits d Hl)). simpl bind.
    exists (unc_digits_of unc_parts ++ Str.replicate (Z.to_nat d) "0")%string,
      (n * 10 ^ d).
    split; [reflexivity|]. split.
    + rewrite (py_int_padded _ n _ Hr Hne Hn). now rewrite Z2Nat.id.
    + assert (P : 0 < 10 ^ d) by (now apply pow10_pos).
      split; [nia|]. split; [reflexivity | lia].
Qed.

Lemma displayed_uncertainty_covers_witness :
  exists digits c,
    format_uncertain_value "1.380649e-23" "1.3e-29"
    = Ok ("" ++ "1" ++ "." ++ "380649" ++ "(" ++ digits ++ ")"
          ++ "e" ++ "-23")%string
    /\ py_int digits = Ok c /\ 1 <= c
    /\ (0 <= -1 -> c = 13 * 10 ^ (-1))
    /\ (-1 < 0 -> (c - 1) * 10 ^ (- (-1)) < 13 <= c * 10 ^ (- (-1))).
Proof.
  apply (displayed_uncertainty_covers "1.380649e-23" "1.3e-29"
           (mk_parts "" "1" "." "380649" "e" "-23")
           (mk_parts "" "1" "." "3" "e" "-29") 13 (-1))%string;
    [ vm_compute; reflexivity | vm_compute; reflexivity
    | split; discriminate | split; discriminate
    | vm_compute; reflexivity | discriminate
    | vm_compute; reflexivity | unfold pad_limit; lia | lia ].
Defined.

End DisplayedValue.

(** ** Formatted text and exponents *)

Section FormattedText.
Local Open Scope Z_scope.

Lemma marker_not_paren (c : ascii) : is_char "e" c = true -> not_paren c = true.
Proof.
  destruct c as [[|] [|] [|] [|] [|] [|] [|] [|]]; vm_compute; congruence.
Qed.

Lemma literal_no_paren (s : string) :
  decimal_literal s -> Str.forallb not_paren s = true.
Proof.
  intros (p & [W1 W2 _ W3 W4 W5 (sg & ds & E & Wsg & Wds)] & ->).
  unfold text_of. rewrite E, !forallb_append.
  rewrite (optional_forallb _ _ _ sign_not_paren W1).
  rewrite (forallb_impl _ _ _ digit_not_paren W2).
  rewrite (optional_forallb _ _ _ point_not_paren W3).
  rewrite (forallb_impl _ _ _ digit_not_paren W4).
  rewrite (optional_forallb _ _ _ marker_not_paren W5).
  rewrite (optional_forallb _ _ _ sign_not_paren Wsg).
  now rewrite (forallb_impl _ _ _ digit_not_paren Wds).
Qed.

Lemma join_parts_has_paren (val_parts : number_parts) (digits : string) :
  Str.forallb not_paren (join_parts val_parts digits) = false.
Proof.
  unfold join_parts. rewrite !forallb_append. simpl Str.forallb at 5.
  now rewrite !andb_false_r.
Qed.

Lemma format_uncertain_value_shape (value uncertainty out : string) :
  format_uncertain_value value uncertainty = Ok out ->
  exists val_parts digits,
    fullmatch_groups value = Ok val_parts /\ out = join_parts val_parts digits.
Proof.
  unfold format_uncertain_value.
  destruct (fullmatch_groups value) as [pv|]; [|discriminate]. simpl bind.
  destruct (fullmatch_groups uncertainty) as [pu|]; [|discriminate]. simpl bind.
  destruct (py_int _) as [n|]; [|discriminate]. simpl bind.
  match goal with |- bind ?m _ = _ -> _ => destruct m as [x|] end;
    [|discriminate].
  simpl bind. intros [= <-]. now exists pv, x.
Qed.

(** X5.  What [format_uncertain_value] returns is never a decimal
    literal: given back to the function, as the value or as the
    uncertainty, it is rejected with the error of a failed
    decomposition. *)
Theorem formatted_text_rejected (value uncertainty out : string) :
  format_uncertain_value value uncertainty = Ok out ->
  ~ decimal_literal out
  /\ (forall other, format_uncertain_value out other = Raise AttributeError)
  /\ (forall other, format_uncertain_value other out = Raise AttributeError).
Proof.
  intros H. destruct (format_uncertain_value_shape _ _ _ H) as (pv & digits & _ & ->).
  assert (N : ~ decimal_literal (join_parts pv digits)).
  { intros L. apply literal_no_paren in L.
    rewrite join_parts_has_paren in L. discriminate. }
  assert (F : fullmatch_groups (join_parts pv digits) = Raise AttributeError).
  { destruct (fullmatch_groups (join_parts pv digits)) as [p|e] eqn:E.
    - exfalso. apply N. apply fullmatch_groups_iff. now exists p.
    - now destruct (fullmatch_groups_error _ _ E) as [-> _]. }
  split; [exact N|]. split; intros other; unfold format_uncertain_value.
  - now rewrite F.
  - destruct (fullmatch_groups other) as [p|e] eqn:E; simpl bind.
    + now rewrite F.
    + now destruct (fullmatch_groups_error _ _ E) as [-> _].
Qed.

Lemma formatted_text_rejected_witness :
  ~ decimal_literal "9.81(002)"
  /\ (forall other, format_uncertain_value "9.81(002)" other = Raise AttributeError)
  /\ (forall other, format_uncertain_value other "9.81(002)" = Raise AttributeError).
Proof.
  apply (formatted_text_rejected "9.81" "0.02" "9.81(002)").
  vm_compute. reflexivity.
Defined.

Lemma py_str_signed_digit_run (z : Z) : signed_digit_run (py_str z).
Proof.
  destruct (Z.lt_ge_cases z 0) as [L|G].
  - destruct z as [|p|p]; try lia.
    exists "-"%string, (NilZero.string_of_uint (Pos.to_uint p)). split; [reflexivity|].
    split; [right; now exists "-"%char|].
    apply (py_str_digit_run (Zpos p)). lia.
  - exists ""%string, (py_str z). split; [reflexivity|].
    split; [now left | now apply py_str_digit_run].
Qed.

Lemma py_str_nonempty (z : Z) : py_str z <> "".
Proof.
  destruct z as [|p|p]; [discriminate | apply (py_str_digit_run (Zpos p)); lia|].
  discriminate.
Qed.

Lemma exponent_value_py_str (z : Z) : exponent_value (py_str z) = Ok z.
Proof.
  unfold exponent_value.
  now rewrite (proj2 (truthy_true _) (py_str_nonempty z)), py_int_py_str.
Qed.

Lemma with_exponent_decomposed (p : number_parts) (z : Z) :
  well_formed p -> (p_point p = "" -> p_frac p = "") ->
  fullmatch_groups (text_of (with_exponent p z)) = Ok (with_exponent p z).
Proof.
  intros [W1 W2 N2 W3 W4 _ _] C. apply fullmatch_groups_canonical.
  - constructor; simpl; auto.
    + right. now exists "e"%char.
    + apply py_str_signed_digit_run.
  - split; simpl; [exact C | discriminate].
Qed.

(** X6.  A common shift of the two exponents changes nothing in the
    displayed uncertainty: for a value and an uncertainty written with
    exponents [ev] and [eu], and for the same two written with [ev + k]
    and [eu + k], the function displays the same digits, or raises the
    same exception. *)
Theorem exponent_shift_invariant (val_parts unc_parts : number_parts) (ev eu k : Z) :
  well_formed val_parts -> well_formed unc_parts ->
  (p_point val_parts = "" -> p_frac val_parts = "") ->
  (p_point unc_parts = "" -> p_frac unc_parts = "") ->
  exists displayed : result string,
    format_uncertain_value (text_of (with_exponent val_parts ev))
                           (text_of (with_exponent unc_parts eu))
    = (digits <- displayed ;;
       Ok (p_sign val_parts ++ p_int val_parts ++ p_point val_parts
           ++ p_frac val_parts ++ "(" ++ digits ++ ")"
           ++ "e" ++ py_str ev)%string)
    /\ format_uncertain_value (text_of (with_exponent val_parts (ev + k)))
                              (text_of (with_exponent unc_parts (eu + k)))
       = (digits <- displayed ;;
          Ok (p_sign val_parts ++ p_int val_parts ++ p_point val_parts
              ++ p_frac val_parts ++ "(" ++ digits ++ ")"
              ++ "e" ++ py_str (ev + k))%string).
Proof.
  intros Wv Wu Cv Cu.
  destruct (unc_digits_run _ Wu) as [Hr Hne].
  destruct (py_int_digit_run _ Hr Hne) as (n & Hn & _).
  assert (D : forall a b,
             exp_discrepancy_of (with_exponent val_parts a)
                                (with_exponent unc_parts b)
             = Ok ((b - Str.len (p_frac unc_parts))
                   - (a - Str.len (p_frac val_parts)))).
  { intros a b. rewrite exp_discrepancy_eq. simpl p_exp. simpl p_frac.
    now rewrite !exponent_value_py_str. }
  set (d := (eu - Str.len (p_frac unc_parts)) - (ev - Str.len (p_frac val_parts))).
  exists (if n =? 0 then Ok "0"%string
          else if d <? 0
               then c <- Float.ceil (Float.of_decimal n d) ;; Ok (py_str c)
               else zeros <- Str.repeat_char "0" d ;;
                    Ok (unc_digits_of unc_parts ++ zeros)%string).
  split.
  - rewrite (format_uncertain_value_eq _ _ _ _ n
               (with_exponent_decomposed _ ev Wv Cv)
               (with_exponent_decomposed _ eu Wu Cu) Hn).
    rewrite D. fold d. simpl bind.
    destruct (n =? 0); [reflexivity|].
    destruct (d <? 0); [|destruct (Str.repeat_char _ _); reflexivity].
    destruct (Float.ceil _); reflexivity.
  - rewrite (format_uncertain_value_eq _ _ _ _ n
               (with_exponent_decomposed _ (ev + k) Wv Cv)
               (with_exponent_decomposed _ (eu + k) Wu Cu) Hn).
    rewrite D.
    replace (eu + k - Str.len (p_frac unc_parts)
             - (ev + k - Str.len (p_frac val_parts))) with d by (unfold d; lia).
    simpl bind.
    destruct (n =? 0); [reflexivity|].
    destruct (d <? 0); [|destruct (Str.repeat_char _ _); reflexivity].
    destruct (Float.ceil _); reflexivity.
Qed.

Lemma exponent_shift_invariant_witness :
  exists displayed : result string,
    format_uncertain_value
      (text_of (with_exponent (mk_parts "" "6" "." "62607015" "" "") (-34)))
      (text_of (with_exponent (mk_parts "" "8" "." "1" "" "") (-41)))
    = (digits <- displayed ;;
       Ok ("" ++ "6" ++ "." ++ "62607015" ++ "(" ++ digits ++ ")"
           ++ "e" ++ py_str (-34))%string)
    /\ format_uncertain_value
         (text_of (with_exponent (mk_parts "" "6" "." "62607015" "" "") (-34 + 7)))
         (text_of (with_exponent (mk_parts "" "8" "." "1" "" "") (-41 + 7)))
       = (digits <- displayed ;;
          Ok ("" ++ "6" ++ "." ++ "62607015" ++ "(" ++ digits ++ ")"
              ++ "e" ++ py_str (-34 + 7))%string).
Proof.
  apply (exponent_shift_invariant (mk_parts "" "6" "." "62607015" "" "")
           (mk_parts "" "8" "." "1" "" "") (-34) (-41) 7);
    try (simpl; discriminate);
    constructor; simpl; try reflexivity; try (now left); try discriminate;
    try (right; now exists "."%char); apply signed_digit_run_nil.
Defined.

End FormattedText.

(** ** Unit expressions put together, and text that is no entry *)

Section UnitExpressions.
Import Re FirstFacts.

Lemma unit_text_cons (t : unit_token) (l : list unit_token) :
  l <> [] -> unit_text (t :: l) = token_text t ++ " " ++ unit_text l.
Proof. destruct l; [congruence | reflexivity]. Qed.

Lemma unit_text_app (l1 l2 : list unit_token) :
  l1 <> [] -> l2 <> [] ->
  unit_text (l1 ++ l2) = unit_text l1 ++ " " ++ unit_text l2.
Proof.
  intros H1 H2. induction l1 as [|t l1 IH]; [congruence|].
  destruct l1 as [|t' l1].
  - simpl app. now rewrite unit_text_cons.
  - change ((t :: t' :: l1) ++ l2)%list with (t :: ((t' :: l1) ++ l2))%list.
    rewrite unit_text_cons by discriminate.
    rewrite IH by discriminate.
    rewrite (unit_text_cons t (t' :: l1)) by discriminate.
    now rewrite !append_assoc.
Qed.

Lemma render_all_app (l1 l2 : list unit_token) :
  render_all (l1 ++ l2)
  = (m1 <- render_all l1 ;; m2 <- render_all l2 ;; Ok (m1 ++ m2)).
Proof.
  induction l1 as [|t l1 IH]; cbn [app render_all bind].
  - destruct (render_all l2); reflexivity.
  - destruct (render_token t) as [m|e]; cbn [bind]; [|reflexivity].
    rewrite IH. destruct (render_all l1) as [ms|e]; cbn [bind]; [|reflexivity].
    destruct (render_all l2) as [ms'|e]; cbn [bind]; [|reflexivity].
    now rewrite append_assoc.
Qed.

(** X7.  [format_unit] works entry by entry and keeps the order: the
    markup of two well-formed expressions joined by a space is the markup
    of the first followed by the markup of the second, and an unknown
    symbol in the first is reported before one in the second. *)
Theorem format_unit_concatenates (l1 l2 : list unit_token) :
  Forall well_formed_token l1 -> Forall well_formed_token l2 ->
  l1 <> [] -> l2 <> [] ->
  format_unit (unit_text l1 ++ " " ++ unit_text l2)
  = (m1 <- format_unit (unit_text l1) ;;
     m2 <- format_unit (unit_text l2) ;;
     Ok (m1 ++ m2)).
Proof.
  intros W1 W2 N1 N2. rewrite <- unit_text_app by assumption.
  rewrite !format_unit_expression; try assumption.
  - apply render_all_app.
  - apply Forall_app. now split.
Qed.

Lemma format_unit_concatenates_witness :
  format_unit (unit_text [("J", "", ""); ("K", "-", "1")] ++ " "
               ++ unit_text [("mol", "-", "1")])
  = (m1 <- format_unit (unit_text [("J", "", ""); ("K", "-", "1")]) ;;
     m2 <- format_unit (unit_text [("mol", "-", "1")]) ;;
     Ok (m1 ++ m2)).
Proof.
  apply (format_unit_concatenates [("J", "", ""); ("K", "-", "1")]
           [("mol", "-", "1")]);
    try discriminate;
    repeat constructor; try discriminate; right; split; (reflexivity || discriminate).
Defined.

Lemma caret_not_word (c : ascii) : is_char "^" c = true -> is_word c = false.
Proof.
  destruct c as [[|] [|] [|] [|] [|] [|] [|] [|]]; vm_compute; congruence.
Qed.

(** Inside a run of word characters no match can start. *)
Lemma match_here_after_word prev s :
  is_word_opt prev = true -> Str.forallb is_word s = true ->
  match_here unit_regex prev s = None.
Proof.
  intros Hp Hs. destruct s as [|c s]; [now apply match_here_stops|].
  simpl in Hs. apply andb_prop in Hs. destruct Hs as [Hc _].
  unfold match_here, unit_regex. simpl.
  unfold at_boundary. simpl. now rewrite Hp, Hc.
Qed.

(** A run of word characters that are not all letters is not matched
    from its start. *)
Lemma match_here_word_run prev s :
  Str.forallb is_word s = true -> Str.forallb is_letter s = false ->
  match_here unit_regex prev s = None.
Proof.
  intros Hw Hl. unfold match_here.
  destruct (run unit_regex prev s no_groups) as [|o l] eqn:R; [reflexivity|].
  exfalso. assert (D : den unit_regex prev s no_groups o).
  { apply ReFacts.run_den. rewrite R. now left. }
  unfold unit_regex in D. destruct o as [[t rest] g].
  destruct D as (t1 & s1 & g1 & t2 & s2 & g2 & [_ [= -> -> ->]] & K & _).
  destruct K as (t3 & s3 & g3 & t4 & s4 & g4 & G & K & _).
  apply ReFacts.den_group_plus in G. destruct G as (L3 & N3 & -> & ->).
  rewrite forallb_append in Hw, Hl. apply andb_prop in Hw. destruct Hw as [_ Hw3].
  rewrite L3 in Hl. simpl in Hl.
  destruct K as (t5 & s5 & g5 & t6 & s6 & g6 & O & B & _).
  destruct (last_of_run is_letter (Str.last prev "") t3 L3 N3) as (c & Ec & Hc).
  simpl in O. destruct O as [O|[= -> -> ->]].
  - destruct O as (u1 & r1 & h1 & u2 & r2 & h2 & (x & r & Hx & -> & _) & _).
    simpl in Hw3. apply andb_prop in Hw3. destruct Hw3 as [Hx' _].
    rewrite (caret_not_word x Hx) in Hx'. discriminate.
  - simpl in B. destruct B as [B _]. unfold at_boundary in B.
    simpl Str.last in Ec. rewrite Ec in B. simpl in B.
    rewrite (letter_is_word c Hc) in B.
    destruct s3 as [|y s3]; [simpl in Hl; discriminate|].
    simpl in Hw3. apply andb_prop in Hw3. destruct Hw3 as [Hy _].
    simpl in B. rewrite Hy in B. discriminate.
Qed.

Lemma scan_word_run (s : string) :
  Str.forallb is_word s = true ->
  forall fuel prev,
    is_word_opt prev = true \/ Str.forallb is_letter s = false ->
    scan fuel unit_regex prev s = [].
Proof.
  induction s as [|c s IH]; intros Hw fuel prev H; destruct fuel as [|fuel];
    try reflexivity.
  - now rewrite scan_end by (now apply match_here_stops).
  - assert (M : match_here unit_regex prev (String c s) = None).
    { destruct H as [H|H]; [now apply match_here_after_word|].
      now apply match_here_word_run. }
    rewrite (scan_unmatched _ _ _ _ _ M).
    simpl in Hw. apply andb_prop in Hw. destruct Hw as [Hc Hs].
    apply IH; [assumption|]. left. exact Hc.
Qed.

(** X8.  A run of word characters (letters, digits, underscores) that is
    not made of letters only holds no entry: [findall] reports nothing for it and
    [format_unit] returns the empty string, whether or not its letters are
    a symbol of the table. *)
Theorem word_run_dropped (unit_input : string) :
  Str.forallb is_word unit_input = true ->
  Str.forallb is_letter unit_input = false ->
  findall3 unit_regex unit_input = [] /\ format_unit unit_input = Ok "".
Proof.
  intros Hw Hl.
  assert (F : findall3 unit_regex unit_input = []).
  { unfold findall3, finditer. rewrite scan_word_run; auto. }
  split; [exact F|]. unfold format_unit. now rewrite F.
Qed.

Lemma word_run_dropped_witness :
  findall3 unit_regex "furlong_2" = [] /\ format_unit "furlong_2" = Ok "".
Proof. apply (word_run_dropped "furlong_2"); vm_compute; reflexivity. Defined.

End UnitExpressions.

(** ** main *)

Section MainFacts.
Local Open Scope Z_scope.

Variables (setup cleanup : string).

Lemma render_all_known (tokens : list unit_token) :
  Forall (fun t => in_table (token_base t)) tokens ->
  exists out, render_all tokens = Ok out.
Proof.
  induction 1 as [|[[base sign] exp] l [m Hm] _ [out IH]]; cbn [render_all render_token].
  - now eexists.
  - unfold token_base in Hm. cbn [fst] in Hm. rewrite Hm, IH. cbn [bind]. now eexists.
Qed.

Lemma format_uncertain_value_returns
  (value uncertainty : string) (val_parts unc_parts : number_parts) (n d : Z) :
  fullmatch_groups value = Ok val_parts ->
  fullmatch_groups uncertainty = Ok unc_parts ->
  py_int (unc_digits_of unc_parts) = Ok n -> n < 2 ^ 1024 ->
  exp_discrepancy_of val_parts unc_parts = Ok d -> d <= pad_limit ->
  exists out, format_uncertain_value value uncertainty = Ok out.
Proof.
  intros Hv Hu Hn Hb Hd Hl.
  rewrite (format_uncertain_value_eq _ _ _ _ _ Hv Hu Hn).
  destruct (n =? 0); [now eexists|].
  rewrite Hd. simpl bind.
  destruct (d <? 0) eqn:Hd0.
  - apply Z.ltb_lt in Hd0.
    destruct (ceil_of_decimal_defined n d Hb Hd0) as [c ->]. now eexists.
  - rewrite (repeat_char_ok _ d (pad_limit_fits d Hl)). now eexists.
Qed.

Lemma declare_line_writable (c : constant) :
  writable c -> exists line, declare_line c = Ok line.
Proof.
  intros [(tokens & Eu & Wt & Kt)
          (pv & pu & n & d & Hv & Hu & Pv & Pu & Hn & Hb & Hd & Hl)].
  rewrite (discrepancy_paired _ _ Pv Pu) in Hd.
  unfold declare_line. rewrite Eu, (format_unit_expression _ Wt).
  destruct (render_all_known _ Kt) as [m ->]. cbn [bind].
  destruct (format_uncertain_value_returns _ _ _ _ _ _ Hv Hu Hn Hb Hd Hl)
    as [out ->].
  cbn [bind]. now eexists.
Qed.

Lemma write_declarations_all (records : list constant) (lines : list string) :
  Forall2 (fun c line => declare_line c = Ok line) records lines ->
  forall written,
    write_declarations records written
    = (written ++ String.concat "" lines, None).
Proof.
  induction 1 as [|c line records lines Hc _ IH]; intros written;
    cbn [write_declarations].
  - simpl. now rewrite append_nil_r.
  - rewrite Hc, IH. f_equal. rewrite append_assoc. f_equal.
    destruct lines; simpl; [now rewrite append_nil_r | reflexivity].
Qed.

Lemma write_declarations_until (pre post : list constant) (c : constant)
  (lines : list string) (e : exn) :
  Forall2 (fun c line => declare_line c = Ok line) pre lines ->
  declare_line c = Raise e ->
  forall written,
    write_declarations (pre ++ c :: post) written
    = (written ++ String.concat "" lines, Some e).
Proof.
  intros H Hc. induction H as [|c' line pre lines Hc' _ IH]; intros written;
    cbn [app write_declarations].
  - rewrite Hc. simpl. now rewrite append_nil_r.
  - rewrite Hc', IH. f_equal. rewrite append_assoc. f_equal.
    destruct lines; simpl; [now rewrite append_nil_r | reflexivity].
Qed.

(** X9.  [main] completes on a table of writable records, those whose
    unit is a well-formed expression over the table, whose value and
    uncertainty are literals with the exponent marker and the exponent
    group together or not at all, with uncertainty digits below [2^1024]
    and a discrepancy of at most [pad_limit]: it raises nothing and the
    file holds the setup block, one line per record in the order of the
    table, and the cleanup block. *)
Theorem main_completes (records : list constant) :
  Forall writable records ->
  exists lines,
    Forall2 (fun c line => declare_line c = Ok line) records lines
    /\ main setup cleanup records
       = (setup ++ String.concat "" lines ++ cleanup, None).
Proof.
  intros W.
  assert (L : exists lines,
             Forall2 (fun c line => declare_line c = Ok line) records lines).
  { induction W as [|c l Hc _ [lines IH]]; [exists []; constructor|].
    destruct (declare_line_writable c Hc) as [line Hl].
    exists (line :: lines). now constructor. }
  destruct L as [lines L]. exists lines. split; [exact L|].
  unfold main. rewrite (write_declarations_all _ _ L). simpl append.
  now rewrite append_assoc.
Qed.

(** X10.  When the line of a record cannot be formatted, [main] ends
    with that record's exception, and the file is left with the setup
    block and the lines of the records before it: no later record is
    written, and the cleanup block is missing. *)
Theorem main_stops_at_first_failure (pre post : list constant) (c : constant)
  (lines : list string) (e : exn) :
  Forall2 (fun c line => declare_line c = Ok line) pre lines ->
  declare_line c = Raise e ->
  main setup cleanup (pre ++ c :: post)
  = (setup ++ String.concat "" lines, Some e).
Proof.
  intros H Hc. unfold main. now rewrite (write_declarations_until _ _ _ _ _ H Hc).
Qed.

End MainFacts.

Lemma main_completes_witness :
  exists lines,
    Forall2 (fun c line => declare_line c = Ok line)
      [mk_constant "Planck constant" "6.62607015e-34" "J Hz^-1" "0.0";
       mk_constant "proton mass" "1.67262192369e-27" "kg" "5.1e-37"] lines
    /\ main "\makeatletter" "\makeatother"
         [mk_constant "Planck constant" "6.62607015e-34" "J Hz^-1" "0.0";
          mk_constant "proton mass" "1.67262192369e-27" "kg" "5.1e-37"]
       = ("\makeatletter" ++ String.concat "" lines ++ "\makeatother", None).
Proof.
  apply (main_completes "\makeatletter" "\makeatother").
  repeat constructor.
  - exists [("J", "", ""); ("Hz", "-", "1")]. split; [reflexivity|].
    split; repeat constructor; try discriminate;
      try (right; split; (reflexivity || discriminate));
      eexists; vm_compute; reflexivity.
  - exists (mk_parts "" "6" "." "62607015" "e" "-34"),
      (mk_parts "" "0" "." "0" "" ""), 0%Z, 41%Z.
    repeat (split;
            [first [ vm_compute; reflexivity
                   | split; intros; (reflexivity || discriminate) ]|]).
    unfold pad_limit. lia.
  - exists [("kg", "", "")]. split; [reflexivity|].
    split; repeat constructor; try discriminate; try (now left);
      eexists; vm_compute; reflexivity.
  - exists (mk_parts "" "1" "." "67262192369" "e" "-27"),
      (mk_parts "" "5" "." "1" "e" "-37"), 51%Z, 0%Z.
    repeat (split;
            [first [ vm_compute; reflexivity
                   | split; intros; (reflexivity || discriminate) ]|]).
    unfold pad_limit. lia.
Defined.

Lemma main_stops_at_first_failure_witness :
  main "\makeatletter" "\makeatother"
    ([mk_constant "proton mass" "1.67262192369e-27" "kg" "5.1e-37"]
     ++ mk_constant "Bohr magneton" "9.2740100783e-24" "J T^-1 parsec" "2.8e-33"
        :: [mk_constant "Planck constant" "6.62607015e-34" "J Hz^-1" "0.0"])
  = ("\makeatletter"
     ++ String.concat ""
          ["\physicalconstants@declare{proton mass}{1.67262192369e-27}{\kilogram}{5.1e-37}{1.67262192369(51)e-27}"
           ++ newline],
     Some (KeyError "parsec")).
Proof.
  apply (main_stops_at_first_failure "\makeatletter" "\makeatother").
  - repeat constructor.
  - vm_compute. reflexivity.
Defined.
